(** * Minesweeper rules engine (components.py): shallow embedding and properties

    The Python classes [CellState], [Cell] and [Board] are embedded as records;
    a method that mutates [self] becomes a function from the world before the
    call to the world after it.  Python integers are unbounded, so they are [Z].
    A raised exception is part of the result, together with the world as the
    mutations done before the raise left it. *)

From stdpp Require Import base numbers list strings.

Local Open Scope Z_scope.

(** ** The fragments of the Python runtime the engine relies on *)

Module Py.

(** The exceptions the engine's statements can raise. *)
Inductive Exn : Set := AttributeError | ValueError | IndexError.

(** What a call leaves behind: it returns, or it raises; either way the
    mutable store is as the executed statements left it. *)
Inductive Result (S : Type) : Type :=
| Ok (s : S)
| Err (e : Exn) (s : S).
Arguments Ok {S} s.
Arguments Err {S} e s.

Definition after {S} (r : Result S) : S :=
  match r with Ok s => s | Err _ s => s end.

Definition returned {S} (r : Result S) : bool :=
  match r with Ok _ => true | Err _ _ => false end.

Definition bind {S} (r : Result S) (k : S -> Result S) : Result S :=
  match r with Ok s => k s | Err e s => Err e s end.

(** [for x in xs: body], the body mutating the store; a raise leaves the loop. *)
Fixpoint for_each {X S} (body : X -> S -> Result S) (xs : list X) (s : S) : Result S :=
  match xs with
  | [] => Ok s
  | x :: xs' => bind (body x s) (for_each body xs')
  end.

(** A value a method hands back: [None] or an [int]. *)
Inductive Val : Set := NoneVal | IntVal (z : Z).

(** [range(n)] *)
Definition range (n : Z) : list Z := seqZ 0 n.

(** The position [l[i]] designates: Python counts a negative index from the
    end, and anything outside [-len, len) is an [IndexError]. *)
Definition slot {A} (l : list A) (i : Z) : option nat :=
  let n := Z.of_nat (length l) in
  if bool_decide (0 <= i < n) then Some (Z.to_nat i)
  else if bool_decide (- n <= i < 0) then Some (Z.to_nat (i + n))
  else None.

(** [l[i]] *)
Definition getitem {A} (l : list A) (i : Z) : option A :=
  match slot l i with
  | Some n => l !! n
  | None => None
  end.

(** [l[i].field = v]: the object found at [l[i]] is mutated in place. *)
Definition modify {A} (l : list A) (i : Z) (f : A -> A) : option (list A) :=
  match slot l i with
  | Some n => match l !! n with
              | Some x => Some (<[n := f x]> l)
              | None => None
              end
  | None => None
  end.

(** Taking the [j]-th element out of a list. *)
Fixpoint take_nth {A} (j : nat) (l : list A) {struct l} : option (A * list A) :=
  match l with
  | [] => None
  | x :: t =>
      match j with
      | O => Some (x, t)
      | S j' => match take_nth j' t with
                | Some (y, t') => Some (y, x :: t')
                | None => None
                end
      end
  end.

(** [k] draws without replacement.  The generator is the stream of its
    future outputs; a draw reduces the next output modulo what is left. *)
Fixpoint draw {A} (k : nat) (gen : list nat) (pool : list A) : list A * list nat :=
  match k with
  | O => ([], gen)
  | S k' =>
      match take_nth (hd O gen mod length pool)%nat pool with
      | None => ([], gen)
      | Some (x, rest) =>
          let '(xs, gen') := draw k' (tl gen) rest in (x :: xs, gen')
      end
  end.

(** [random.sample(population, k)]: [ValueError] unless [0 <= k <= len]. *)
Definition sample {A} (gen : list nat) (population : list A) (k : Z)
  : option (list A * list nat) :=
  if bool_decide (0 <= k <= Z.of_nat (length population))
  then Some (draw (Z.to_nat k) gen population)
  else None.

End Py.

Import Py.

(** ** Data model *)

Record CellState : Set := mkCellState {
  is_mine : bool;
  is_revealed : bool;
  is_flagged : bool;
  adjacent : Z
}.

Record Cell : Set := mkCell {
  col : Z;
  row : Z;
  state : CellState
}.

(** [Cell(col, row)]: the state is [CellState()] with its defaults. *)
Definition Cell_init (c r : Z) : Cell :=
  mkCell c r (mkCellState false false false 0).

(** The attributes of a [Board] object.  [__init__] assigns [_mines_placed];
    [reveal] and [place_mines] use the attribute [mines_placed], which exists
    on the object only once something has assigned it, hence the option. *)
Record Board : Set := mkBoard {
  cols : Z;
  rows : Z;
  num_mines : Z;
  cells : list Cell;
  _mines_placed : bool;
  mines_placed : option bool;
  revealed_count : Z;
  game_over : bool;
  win : bool
}.

(** The engine's world: the board and the state of the [random] module. *)
Record World : Set := mkWorld {
  board : Board;
  rng : list nat
}.

Definition Outcome : Type := Result World.

(** *** Attribute assignments *)

Definition set_is_mine (v : bool) (c : Cell) : Cell :=
  let s := state c in
  mkCell (col c) (row c) (mkCellState v (is_revealed s) (is_flagged s) (adjacent s)).

Definition set_is_revealed (v : bool) (c : Cell) : Cell :=
  let s := state c in
  mkCell (col c) (row c) (mkCellState (is_mine s) v (is_flagged s) (adjacent s)).

Definition set_is_flagged (v : bool) (c : Cell) : Cell :=
  let s := state c in
  mkCell (col c) (row c) (mkCellState (is_mine s) (is_revealed s) v (adjacent s)).

Definition set_adjacent (v : Z) (c : Cell) : Cell :=
  let s := state c in
  mkCell (col c) (row c) (mkCellState (is_mine s) (is_revealed s) (is_flagged s) v).

Definition set_cells (cs : list Cell) (b : Board) : Board :=
  mkBoard (cols b) (rows b) (num_mines b) cs (_mines_placed b) (mines_placed b)
          (revealed_count b) (game_over b) (win b).

Definition set_mines_placed (v : bool) (b : Board) : Board :=
  mkBoard (cols b) (rows b) (num_mines b) (cells b) (_mines_placed b) (Some v)
          (revealed_count b) (game_over b) (win b).

Definition set_game_over (v : bool) (b : Board) : Board :=
  mkBoard (cols b) (rows b) (num_mines b) (cells b) (_mines_placed b) (mines_placed b)
          (revealed_count b) v (win b).

Definition set_win (v : bool) (b : Board) : Board :=
  mkBoard (cols b) (rows b) (num_mines b) (cells b) (_mines_placed b) (mines_placed b)
          (revealed_count b) (game_over b) v.

Definition set_board (b : Board) (w : World) : World := mkWorld b (rng w).

(** ** Board *)

(** [Board.__init__] *)
Definition Board_init (cols rows mines : Z) : Board :=
  mkBoard cols rows mines
          (r ← range rows; c ← range cols; [Cell_init c r])
          false None 0 false false.

(** [Board.index] *)
Definition index (b : Board) (col row : Z) : Z := row * cols b + col.

(** [Board.is_inbounds] *)
Definition is_inbounds (b : Board) (col row : Z) : bool :=
  bool_decide (0 <= col < cols b) && bool_decide (0 <= row < rows b).

Definition deltas : list (Z * Z) :=
  [ (-1, -1); (0, -1); (1, -1);
    (-1,  0);          (1,  0);
    (-1,  1); (0,  1); (1,  1) ].

(** [Board.neighbors] *)
Definition neighbors (b : Board) (col row : Z) : list (Z * Z) :=
  List.filter (fun p => is_inbounds b p.1 p.2)
              ((fun d => (col + d.1, row + d.2)) <$> deltas).

(** The inner loop of step 4 of [place_mines]: [mine_count] over the
    neighbours, [None] when a subscript raises. *)
Fixpoint count_mines (b : Board) (ns : list (Z * Z)) (mine_count : Z) : option Z :=
  match ns with
  | [] => Some mine_count
  | (nc, nr) :: ns' =>
      match getitem (cells b) (index b nc nr) with
      | None => None
      | Some n =>
          count_mines b ns' (if is_mine (state n) then mine_count + 1 else mine_count)
      end
  end.

(** The body of the first loop of [place_mines]. *)
Definition mark_mine (p : Z * Z) (b : Board) : Result Board :=
  match modify (cells b) (index b p.1 p.2) (set_is_mine true) with
  | None => Err IndexError b
  | Some cs => Ok (set_mines_placed true (set_cells cs b))
  end.

(** The body of the adjacency loops of [place_mines], at column [c] of row [r]. *)
Definition adjacency_step (r c : Z) (b : Board) : Result Board :=
  let idx := index b c r in
  match getitem (cells b) idx with
  | None => Err IndexError b
  | Some cell =>
      if is_mine (state cell) then Ok b
      else match count_mines b (neighbors b c r) 0 with
           | None => Err IndexError b
           | Some mine_count =>
               match modify (cells b) idx (set_adjacent mine_count) with
               | None => Err IndexError b
               | Some cs => Ok (set_cells cs b)
               end
           end
  end.

Definition adjacency_loops (b : Board) : Result Board :=
  for_each (fun r b' => for_each (adjacency_step r) (range (cols b')) b')
           (range (rows b)) b.

(** [Board.place_mines].  The set [forbidden] is only asked for membership, so
    the list of its members stands for it. *)
Definition place_mines (safe_col safe_row : Z) (w : World) : Outcome :=
  let b := board w in
  let forbidden := (safe_col, safe_row) :: neighbors b safe_col safe_row in
  let all_positions := r ← range (rows b); c ← range (cols b); [(c, r)] in
  let pool := filter (fun p => p ∉ forbidden) all_positions in
  let count := Z.min (num_mines b) (Z.of_nat (length pool)) in
  match sample (rng w) pool count with
  | None => Err ValueError w
  | Some (mine_locs, gen) =>
      match bind (for_each mark_mine mine_locs b) adjacency_loops with
      | Ok b' => Ok (mkWorld b' gen)
      | Err e b' => Err e (mkWorld b' gen)
      end
  end.

(** [Board._reveal_all_mines] *)
Definition _reveal_all_mines (b : Board) : Board :=
  set_cells ((fun cell => if is_mine (state cell) then set_is_revealed true cell else cell)
               <$> cells b) b.

(** [Board._check_win] *)
Definition _check_win (b : Board) : Board :=
  let total_cells := cols b * rows b in
  if bool_decide (revealed_count b = total_cells - num_mines b) && negb (game_over b)
  then set_cells ((fun cell => if negb (is_revealed (state cell)) && negb (is_mine (state cell))
                               then set_is_revealed true cell else cell)
                    <$> cells b)
                 (set_win true b)
  else b.

(** The loop [for nc, nr in self.neighbors(col, row): self.reveal(nc, nr)],
    over whatever [reveal] is at that depth; a raise leaves the loop. *)
Fixpoint reveal_each (rev : Z -> Z -> World -> option Outcome)
    (ns : list (Z * Z)) (w : World) : option Outcome :=
  match ns with
  | [] => Some (Ok w)
  | (nc, nr) :: ns' =>
      match rev nc nr w with
      | Some (Ok w') => reveal_each rev ns' w'
      | other => other
      end
  end.

(** Step 5 of [reveal]: the revealed cell is a mine. *)
Definition hit_mine (w : World) : World :=
  set_board (_reveal_all_mines (set_game_over true (board w))) w.

(** Step 7 of [reveal]. *)
Definition check_win (w : World) : World :=
  set_board (_check_win (board w)) w.

(** Steps 3 to 7 of [Board.reveal], from the subscript [self.cells[idx]] on;
    [rev] stands for the method itself where the loop calls it on the
    neighbours, and [None] says that such a call ran out of depth. *)
Definition reveal_cell (rev : Z -> Z -> World -> option Outcome)
    (col row : Z) (w1 : World) : option Outcome :=
  let b1 := board w1 in
  let idx := index b1 col row in
  match getitem (cells b1) idx with
  | None => Some (Err IndexError w1)
  | Some cell =>
      if is_revealed (state cell) || is_flagged (state cell)
      then Some (Ok w1)
      else
        match modify (cells b1) idx (set_is_revealed true) with
        | None => Some (Err IndexError w1)
        | Some cs =>
            let w2 := set_board (set_cells cs b1) w1 in
            if is_mine (state cell) then Some (Ok (hit_mine w2))
            else
              match (if bool_decide (adjacent (state cell) = 0)
                     then reveal_each rev (neighbors (board w2) col row) w2
                     else Some (Ok w2)) with
              | Some (Ok w3) => Some (Ok (check_win w3))
              | other => other
              end
        end
  end.

(** The body of [Board.reveal]: steps 1 and 2, then the rest. *)
Definition reveal_body (rev : Z -> Z -> World -> option Outcome)
    (col row : Z) (w : World) : option Outcome :=
  if negb (is_inbounds (board w) col row) then Some (Ok w)
  else
    match mines_placed (board w) with
    | None => Some (Err AttributeError w)
    | Some placed =>
        match (if negb placed then place_mines col row w else Ok w) with
        | Err e w1 => Some (Err e w1)
        | Ok w1 => reveal_cell rev col row w1
        end
    end.

(** [Board.reveal], the calls on itself nested at most [fuel] deep: [fuel] is
    the number of nested calls of [reveal] that the interpreter allows, and
    [None] says that the flood needed one more.  That is where CPython raises
    [RecursionError], with part of the flood done; the exception and the board
    it leaves are not modelled. *)
Fixpoint reveal_n (fuel : nat) : Z -> Z -> World -> option Outcome :=
  match fuel with
  | O => fun _ _ _ => None
  | S fuel' => reveal_body (reveal_n fuel')
  end.

(** The number of cells not revealed yet: the depth the calls of [reveal] on
    itself cannot exceed. *)
Definition hidden (b : Board) : nat :=
  length (List.filter (fun cell => negb (is_revealed (state cell))) (cells b)).

(** [Board.reveal] run with all the depth it needs: the bound is shown below
    to be enough.  A statement that the call returns is made of [reveal_n],
    with the depth that it takes. *)
Definition reveal (col row : Z) (w : World) : Outcome :=
  match reveal_n (S (hidden (board w))) col row w with
  | Some o => o
  | None => Ok w
  end.

(** [Board.toggle_flag] *)
Definition toggle_flag (col row : Z) (w : World) : Outcome :=
  let b := board w in
  if negb (is_inbounds b col row) then Ok w
  else
    let idx := index b col row in
    match getitem (cells b) idx with
    | None => Err IndexError w
    | Some cell =>
        if is_revealed (state cell) then Ok w
        else
          match modify (cells b) idx (set_is_flagged (negb (is_flagged (state cell)))) with
          | None => Err IndexError w
          | Some cs => Ok (set_board (set_cells cs b) w)
          end
    end.

(** [Board.flagged_count]: the body is [pass], so the call hands back [None]. *)
Definition flagged_count (w : World) : Val * World := (NoneVal, w).

(** ** Calls and lifetimes *)

(** The two operations the presentation layer drives a game with. *)
Inductive Move : Set :=
| Reveal (col row : Z)
| ToggleFlag (col row : Z).

Definition move (m : Move) (w : World) : Outcome :=
  match m with
  | Reveal c r => reveal c r w
  | ToggleFlag c r => toggle_flag c r w
  end.

(** A sequence of calls, one after the other; a raise ends it. *)
Definition play (ms : list Move) (w : World) : Outcome := for_each move ms w.

(** The worlds a board can be in during its lifetime: it is constructed, and
    then any method is called on it, any number of times. *)
Inductive reachable : World -> Prop :=
| reach_init (cols rows mines : Z) (gen : list nat) :
    reachable (mkWorld (Board_init cols rows mines) gen)
| reach_move (m : Move) (w : World) :
    reachable w -> reachable (after (move m w))
| reach_place_mines (c r : Z) (w : World) :
    reachable w -> reachable (after (place_mines c r w))
| reach_flagged_count (w : World) :
    reachable w -> reachable (flagged_count w).2
| reach_reveal_all_mines (w : World) :
    reachable w -> reachable (set_board (_reveal_all_mines (board w)) w)
| reach_check_win (w : World) :
    reachable w -> reachable (check_win w).

(** ** What the properties observe *)

(** The cell object of [(col, row)], when the subscript finds one. *)
Definition cell_at (b : Board) (col row : Z) : option Cell :=
  getitem (cells b) (index b col row).

(** The [is_mine] attributes, in the order of [cells]. *)
Definition mines (b : Board) : list bool := (fun cell => is_mine (state cell)) <$> cells b.

(** The [is_mine] attribute of the cell of [(col, row)]. *)
Definition is_mine_at (b : Board) (col row : Z) : option bool :=
  getitem (mines b) (index b col row).

(** The number of in-bounds neighbours of [(col, row)] that are mines. *)
Definition mine_neighbors (b : Board) (col row : Z) : Z :=
  Z.of_nat (length (List.filter (fun p => bool_decide (is_mine_at b p.1 p.2 = Some true))
                                (neighbors b col row))).

(** The first-clicked cell and its in-bounds neighbours. *)
Definition safe_zone (b : Board) (safe_col safe_row : Z) : list (Z * Z) :=
  (safe_col, safe_row) :: neighbors b safe_col safe_row.

(** The number of cells with [is_revealed] true, [is_flagged] true. *)
Definition count_revealed (b : Board) : Z :=
  Z.of_nat (length (List.filter (fun cell => is_revealed (state cell)) (cells b))).

Definition count_flagged (b : Board) : Z :=
  Z.of_nat (length (List.filter (fun cell => is_flagged (state cell)) (cells b))).

(** Every cell that is not a mine is revealed. *)
Definition all_safe_revealed (b : Board) : bool :=
  forallb (fun cell => is_mine (state cell) || is_revealed (state cell)) (cells b).

(** The adjacency of [(c, r)] is in place on board [b']: the cell is there
    and, unless it is a mine, holds the number of its neighbouring mines. *)
Definition adjacency_set (b' : Board) (c r : Z) : Prop :=
  exists cell, cell_at b' c r = Some cell /\
               (is_mine (state cell) = false ->
                adjacent (state cell) = mine_neighbors b' c r /\
                0 <= adjacent (state cell) <= 8).

(** The board has the grid and the mines of [b]. *)
Definition same_mines (b b' : Board) : Prop :=
  cols b' = cols b /\ rows b' = rows b /\ mines b' = mines b.

(** The [is_revealed] and the [is_flagged] attributes, in the order of [cells]. *)
Definition revealed_flags (b : Board) : list bool :=
  (fun cell => is_revealed (state cell)) <$> cells b.

Definition flagged_flags (b : Board) : list bool :=
  (fun cell => is_flagged (state cell)) <$> cells b.

(** Everything on a board that [place_mines] has no assignment to. *)
Definition outside_placement (b : Board) :=
  (cols b, rows b, num_mines b, _mines_placed b, revealed_count b,
   game_over b, win b, revealed_flags b, flagged_flags b).

(** [mines_placed] is assigned nothing but [True]. *)
Definition placed_or_kept (b b' : Board) : Prop :=
  mines_placed b' = mines_placed b \/ mines_placed b' = Some true.

(** How [game_over] and [win] can differ between an earlier and a later
    world: neither goes back to false, and [win] is not set once [game_over]
    is true. *)
Definition verdict_order (w w' : World) : Prop :=
  (game_over (board w) = true -> game_over (board w') = true) /\
  (win (board w) = true -> win (board w') = true) /\
  (game_over (board w) = true -> win (board w') = win (board w)).

(** What the grid, the counter and [win] can be on a later board [b']:
    nothing assigns the first four, and [win] is set only by a check that
    found [revealed_count] equal to the number of cells minus [num_mines]. *)
Definition win_frame (b b' : Board) : Prop :=
  cols b' = cols b /\ rows b' = rows b /\ num_mines b' = num_mines b /\
  revealed_count b' = revealed_count b /\
  (win b' = true ->
   win b = true \/ revealed_count b = cols b * rows b - num_mines b).

(** Mines stay where they are, provided [mines_placed] is not false. *)
Definition mines_kept (w w' : World) : Prop :=
  mines_placed (board w) <> Some false ->
  mines_placed (board w') <> Some false /\ mines (board w') = mines (board w).

(** The list [cells] holds a cell for every position of the grid. *)
Definition grid_complete (b : Board) : Prop :=
  length (cells b) = (Z.to_nat (rows b) * Z.to_nat (cols b))%nat.

(** The grid is complete and mines have been placed. *)
Definition playable (w : World) : Prop :=
  grid_complete (board w) /\ mines_placed (board w) = Some true.

(** A new board, with the generator as it is at that time. *)
Definition new_game (cols rows mines : Z) (gen : list nat) : World :=
  mkWorld (Board_init cols rows mines) gen.

(** The coordinates and the [adjacent] attributes, in the order of [cells]. *)
Definition coords (b : Board) : list (Z * Z) :=
  (fun cell => (col cell, row cell)) <$> cells b.

Definition adjacents (b : Board) : list Z :=
  (fun cell => adjacent (state cell)) <$> cells b.

(** The number of cells with [is_mine] true. *)
Definition count_mined (b : Board) : Z :=
  Z.of_nat (length (List.filter (fun cell => is_mine (state cell)) (cells b))).

(** The list [pool] of [place_mines]: the positions outside the safe zone. *)
Definition candidates (b : Board) (safe_col safe_row : Z) : list (Z * Z) :=
  filter (fun p => p ∉ safe_zone b safe_col safe_row)
         (r ← range (rows b); c ← range (cols b); [(c, r)]).

(** The [adjacent] of every cell of the grid that is not a mine is the number
    of its neighbouring mines. *)
Definition adjacency_consistent (b : Board) : Prop :=
  forall c r cell, is_inbounds b c r = true -> cell_at b c r = Some cell ->
                   is_mine (state cell) = false ->
                   adjacent (state cell) = mine_neighbors b c r.

(** The cell of [(col, row)] is there, and revealed or flagged: what [reveal]
    skips. *)
Definition settled (b : Board) (col row : Z) : Prop :=
  exists cell, cell_at b col row = Some cell /\
               is_revealed (state cell) || is_flagged (state cell) = true.

(** A cell revealed on the earlier board is revealed on the later one. *)
Definition revealed_kept (b b' : Board) : Prop :=
  forall i, revealed_flags b !! i = Some true -> revealed_flags b' !! i = Some true.

(** What a call of [reveal] can do to the grid, the flags and the revealed
    cells: it keeps the first two and never hides a cell. *)
Definition progress (w w' : World) : Prop :=
  cols (board w') = cols (board w) /\ rows (board w') = rows (board w) /\
  length (cells (board w')) = length (cells (board w)) /\
  flagged_flags (board w') = flagged_flags (board w) /\
  revealed_kept (board w) (board w').

(** For each cell, whether it is a revealed mine. *)
Definition revealed_mines (b : Board) : list bool :=
  (fun cell => is_mine (state cell) && is_revealed (state cell)) <$> cells b.

(** What [place_mines] decides: the grid, the mines and the adjacency counts. *)
Definition placement (b : Board) : Z * Z * list bool * list Z :=
  (cols b, rows b, mines b, adjacents b).

(** A call that has not cost the game: the placement stands, [game_over] is
    what it was and no mine has been revealed. *)
Definition harmless (w w' : World) : Prop :=
  mines_placed (board w') = mines_placed (board w) /\
  placement (board w') = placement (board w) /\
  game_over (board w') = game_over (board w) /\
  revealed_mines (board w') = revealed_mines (board w).

(** ** Configuration (config.py) *)

Module Config.

(** A value of [DIFFICULTY_PRESETS]: a dict with the keys [cols], [rows],
    [mines] and [name]. *)
Record Preset : Set := mkPreset {
  preset_cols : Z;
  preset_rows : Z;
  preset_mines : Z;
  preset_name : string
}.

Definition DIFFICULTY_PRESETS : list (Z * Preset) :=
  [ (1, mkPreset 10 10 10 "초급");
    (2, mkPreset 15 15 40 "중급");
    (3, mkPreset 20 20 80 "고급") ].

(** [d[k]] on a dict with integer keys; [None] is the [KeyError]. *)
Fixpoint dict_getitem {V} (d : list (Z * V)) (k : Z) : option V :=
  match d with
  | [] => None
  | (k', v) :: d' => if bool_decide (k' = k) then Some v else dict_getitem d' k
  end.

(** [d.get(k, default)] *)
Definition dict_get {V} (d : list (Z * V)) (k : Z) (default : V) : V :=
  match dict_getitem d k with
  | Some v => v
  | None => default
  end.

(** [get_difficulty_settings]; the default [DIFFICULTY_PRESETS[2]] is looked
    up before the call of [get]. *)
Definition get_difficulty_settings (level : Z) : option (Z * Z * Z) :=
  match dict_getitem DIFFICULTY_PRESETS 2 with
  | None => None
  | Some default =>
      let preset := dict_get DIFFICULTY_PRESETS level default in
      Some (preset_cols preset, preset_rows preset, preset_mines preset)
  end.

End Config.

(** * Properties *)

(** ** Subscripts and in-place updates *)

Section Subscript.
Context {A : Type}.
Implicit Types (l : list A) (i j : Z) (f : A -> A).

Lemma slot_lt l i n : slot l i = Some n -> (n < length l)%nat.
Proof.
  unfold slot. repeat case_bool_decide; intros [= <-]; lia.
Qed.

Lemma slot_nonneg l i n : 0 <= i -> slot l i = Some n -> n = Z.to_nat i.
Proof.
  unfold slot. repeat case_bool_decide; intros ? [= <-]; lia.
Qed.

Lemma slot_length {B} l (l' : list B) i :
  length l = length l' -> slot l i = slot l' i.
Proof. unfold slot. intros ->. reflexivity. Qed.

Lemma slot_inj l i j n :
  0 <= i -> 0 <= j -> slot l i = Some n -> slot l j = Some n -> i = j.
Proof.
  intros Hi Hj Hsi Hsj.
  apply slot_nonneg in Hsi; [|done]. apply slot_nonneg in Hsj; [|done]. lia.
Qed.

Lemma getitem_Some l i x :
  getitem l i = Some x <-> exists n, slot l i = Some n /\ l !! n = Some x.
Proof.
  unfold getitem. destruct (slot l i) as [n|]; split.
  - eauto.
  - intros (? & [= <-] & ?). done.
  - done.
  - intros (? & [=] & _).
Qed.

Lemma modify_Some l i f l' :
  modify l i f = Some l' <->
  exists n x, slot l i = Some n /\ l !! n = Some x /\ l' = <[n := f x]> l.
Proof.
  unfold modify. destruct (slot l i) as [n|]; [destruct (l !! n) as [x|] eqn:E|]; split.
  - intros [= <-]. eauto.
  - intros (? & ? & [= <-] & ? & ->). congruence.
  - done.
  - intros (? & ? & [= <-] & ? & _). congruence.
  - done.
  - intros (? & ? & [=] & _).
Qed.

Lemma modify_getitem l i f x :
  getitem l i = Some x -> exists l', modify l i f = Some l'.
Proof.
  intros (n & Hs & Hl)%getitem_Some. exists (<[n := f x]> l).
  apply modify_Some. eauto.
Qed.

Lemma modify_length l i f l' : modify l i f = Some l' -> length l' = length l.
Proof.
  intros (n & x & _ & _ & ->)%modify_Some. apply length_insert.
Qed.

Lemma getitem_modify_same l i f l' x :
  modify l i f = Some l' -> getitem l i = Some x -> getitem l' i = Some (f x).
Proof.
  intros Hm (n & Hs & Hl)%getitem_Some.
  pose proof (modify_length _ _ _ _ Hm) as Hlen.
  apply modify_Some in Hm as (n' & x' & Hs' & Hl' & ->).
  assert (n' = n) as -> by congruence. assert (x' = x) as -> by congruence.
  apply getitem_Some. exists n. split.
  - rewrite <- Hs. apply slot_length. done.
  - apply list_lookup_insert_eq. by eapply slot_lt.
Qed.

Lemma getitem_modify_other l i j f l' :
  0 <= i -> 0 <= j -> i <> j ->
  modify l i f = Some l' -> getitem l' j = getitem l j.
Proof.
  intros Hi Hj Hne Hm.
  pose proof (modify_length _ _ _ _ Hm) as Hlen.
  apply modify_Some in Hm as (n & x & Hs & Hl & ->).
  unfold getitem. rewrite (slot_length _ l j Hlen).
  destruct (slot l j) as [m|] eqn:Hsj; [|done].
  apply list_lookup_insert_ne. intros ->. apply Hne. by eapply slot_inj.
Qed.

(** An update that leaves an attribute alone leaves the list of that
    attribute alone. *)
Lemma modify_fmap_same {B} (g : A -> B) l i f l' :
  (forall x, g (f x) = g x) -> modify l i f = Some l' -> g <$> l' = g <$> l.
Proof.
  intros Hg (n & x & _ & Hl & ->)%modify_Some.
  rewrite list_fmap_insert, Hg. apply list_insert_id.
  rewrite list_lookup_fmap, Hl. done.
Qed.

Lemma getitem_fmap {B} (g : A -> B) l i : getitem (g <$> l) i = g <$> getitem l i.
Proof.
  unfold getitem. rewrite <- (slot_length l (g <$> l) i) by (by rewrite length_fmap).
  destruct (slot l i); [apply list_lookup_fmap|done].
Qed.

End Subscript.

(** ** Loops *)

Section Loops.
Context {X S : Type}.
Implicit Types (body : X -> S -> Result S) (xs : list X).

(** A relation between the stores before and after that every iteration
    respects, raised or not, holds across the loop. *)
Lemma for_each_rel body (R : S -> S -> Prop) xs :
  (forall s, R s s) ->
  (forall s1 s2 s3, R s1 s2 -> R s2 s3 -> R s1 s3) ->
  (forall x s, x ∈ xs -> R s (after (body x s))) ->
  forall s, R s (after (for_each body xs s)).
Proof.
  intros Hrefl Htrans. induction xs as [|x xs IH]; intros Hbody s; simpl.
  - apply Hrefl.
  - pose proof (Hbody x s ltac:(left)) as Hx.
    destruct (body x s) as [s'|e s']; simpl in *; [|done].
    eapply Htrans; [exact Hx|]. apply IH. intros; apply Hbody. by right.
Qed.

(** What every completed iteration keeps is kept by the completed loop. *)
Lemma for_each_keeps body (P : S -> Prop) xs :
  (forall x s s', x ∈ xs -> P s -> body x s = Ok s' -> P s') ->
  forall s s', P s -> for_each body xs s = Ok s' -> P s'.
Proof.
  induction xs as [|x xs IH]; intros Hbody s s' HP; simpl.
  - by intros [= <-].
  - destruct (body x s) as [s1|e s1] eqn:E; simpl; [|done].
    apply IH; [intros; eapply Hbody; eauto; by right|].
    eapply Hbody; eauto. left.
Qed.

(** What the iteration for [x] establishes, and the later iterations keep,
    holds for every [x] when the loop completes. *)
Lemma for_each_establishes body (P : S -> Prop) (Q : X -> S -> Prop) xs :
  (forall x s s', x ∈ xs -> P s -> body x s = Ok s' -> P s' /\ Q x s') ->
  (forall x y s s', x ∈ xs -> y ∈ xs -> P s -> Q x s -> body y s = Ok s' -> Q x s') ->
  forall s s', P s -> for_each body xs s = Ok s' ->
               P s' /\ forall x, x ∈ xs -> Q x s'.
Proof.
  induction xs as [|x xs IH]; intros Hest Hkeep s s' HP; simpl.
  - intros [= <-]. split; [done|]. intros ? []%elem_of_nil.
  - destruct (body x s) as [s1|e s1] eqn:E; simpl; [|done]. intros Hloop.
    destruct (Hest x s s1 ltac:(left) HP E) as [HP1 HQ1].
    destruct (IH ltac:(intros; eapply Hest; eauto; by right)
                 ltac:(intros; eapply Hkeep; eauto; by right)
                 s1 s' HP1 Hloop) as [HP' HQ'].
    split; [done|]. intros y [->|Hy]%elem_of_cons; [|by apply HQ'].
    apply (for_each_keeps body (fun t => P t /\ Q x t) xs) with (s := s1) (s' := s');
      [|done|done].
    intros z t t' Hz [HPt HQt] Hb. split.
    + eapply Hest; eauto. by right.
    + eapply (Hkeep x z); eauto; [left|by right].
Qed.

End Loops.

(** ** Coordinates *)

Lemma is_inbounds_spec b c r :
  is_inbounds b c r = true <-> 0 <= c < cols b /\ 0 <= r < rows b.
Proof.
  unfold is_inbounds. rewrite andb_true_iff, !bool_decide_eq_true. done.
Qed.

Lemma index_nonneg b c r : is_inbounds b c r = true -> 0 <= index b c r.
Proof. intros ?%is_inbounds_spec. unfold index. nia. Qed.

(** Row-major numbering tells the cells of the grid apart. *)
Lemma index_inj b c r c' r' :
  is_inbounds b c r = true -> is_inbounds b c' r' = true ->
  index b c r = index b c' r' -> c = c' /\ r = r'.
Proof.
  intros ?%is_inbounds_spec ?%is_inbounds_spec. unfold index. intros ?.
  assert (r = r') by nia. subst. lia.
Qed.

Lemma is_inbounds_layout b b' c r :
  cols b' = cols b -> rows b' = rows b -> is_inbounds b' c r = is_inbounds b c r.
Proof. unfold is_inbounds. by intros -> ->. Qed.

Lemma neighbors_layout b b' c r :
  cols b' = cols b -> rows b' = rows b -> neighbors b' c r = neighbors b c r.
Proof.
  intros Hc Hr. unfold neighbors. apply filter_ext. intros p.
  by apply is_inbounds_layout.
Qed.

Lemma neighbors_inbounds b c r p :
  p ∈ neighbors b c r -> is_inbounds b p.1 p.2 = true.
Proof.
  unfold neighbors. rewrite list_elem_of_In, filter_In. by intros [_ ?].
Qed.

Lemma neighbors_length b c r : (length (neighbors b c r) <= 8)%nat.
Proof. unfold neighbors. etrans; [apply List.filter_length_le|]. done. Qed.

Lemma range_spec n k : k ∈ range n <-> 0 <= k < n.
Proof. unfold range. rewrite elem_of_seqZ. lia. Qed.

(** The coordinates the comprehensions and the nested loops run over are the
    in-bounds ones. *)
Lemma positions_spec b p :
  p ∈ (r ← range (rows b); c ← range (cols b); [(c, r)]) <->
  is_inbounds b p.1 p.2 = true.
Proof.
  rewrite is_inbounds_spec, list_elem_of_bind. split.
  - intros (r & (c & ->%list_elem_of_singleton & Hc%range_spec)%list_elem_of_bind
              & Hr%range_spec). done.
  - intros [Hc Hr]. exists p.2. rewrite range_spec. split; [|done].
    apply list_elem_of_bind. exists p.1. rewrite range_spec.
    split; [|done]. destruct p. apply list_elem_of_singleton. done.
Qed.

(** ** Sampling *)

Lemma take_nth_elem {A} (j : nat) (l : list A) x rest :
  take_nth j l = Some (x, rest) -> x ∈ l /\ forall y, y ∈ rest -> y ∈ l.
Proof.
  revert j x rest. induction l as [|a l IH]; intros j x rest; simpl; [done|].
  destruct j as [|j].
  - intros [= <- <-]. split; [left|]. intros; by right.
  - destruct (take_nth j l) as [[y t]|] eqn:E; [|done]. intros [= <- <-].
    destruct (IH _ _ _ E) as [Hy Hrest]. split; [by right|].
    intros z [->|Hz]%elem_of_cons; [left|right; by apply Hrest].
Qed.

Lemma draw_elem {A} (k : nat) gen (pool : list A) xs gen' :
  draw k gen pool = (xs, gen') -> forall x, x ∈ xs -> x ∈ pool.
Proof.
  revert gen pool xs gen'. induction k as [|k IH]; intros gen pool xs gen'; simpl.
  - intros [= <- <-] x []%elem_of_nil.
  - destruct (take_nth _ pool) as [[y rest]|] eqn:E.
    + destruct (draw k (tl gen) rest) as [ys g] eqn:D. intros [= <- <-].
      destruct (take_nth_elem _ _ _ _ E) as [Hy Hrest].
      intros x [->|Hx]%elem_of_cons; [done|]. apply Hrest. by eapply IH.
    + intros [= <- <-] x []%elem_of_nil.
Qed.

(** [random.sample] hands back members of the population. *)
Lemma sample_elem {A} gen (pool : list A) k xs gen' :
  sample gen pool k = Some (xs, gen') -> forall x, x ∈ xs -> x ∈ pool.
Proof.
  unfold sample. case_bool_decide; [|done]. intros [= E]. by eapply draw_elem.
Qed.

(** ** Mine placement *)

Lemma is_mine_at_cell b c r :
  is_mine_at b c r = (fun cell => is_mine (state cell)) <$> cell_at b c r.
Proof. apply getitem_fmap. Qed.

Lemma is_mine_at_layout b b' c r :
  cols b' = cols b -> mines b' = mines b -> is_mine_at b' c r = is_mine_at b c r.
Proof. unfold is_mine_at, index. by intros -> ->. Qed.

Lemma mine_neighbors_layout b b' c r :
  cols b' = cols b -> rows b' = rows b -> mines b' = mines b ->
  mine_neighbors b' c r = mine_neighbors b c r.
Proof.
  intros Hc Hr Hm. unfold mine_neighbors.
  rewrite (neighbors_layout b b') by done.
  do 2 f_equal. apply filter_ext. intros p.
  by rewrite (is_mine_at_layout b b').
Qed.

Lemma mine_neighbors_bounds b c r : 0 <= mine_neighbors b c r <= 8.
Proof.
  unfold mine_neighbors.
  pose proof (List.filter_length_le
                (fun p => bool_decide (is_mine_at b p.1 p.2 = Some true))
                (neighbors b c r)).
  pose proof (neighbors_length b c r). lia.
Qed.

(** The counting loop counts the neighbours that are mines. *)
Lemma count_mines_spec b ns acc k :
  count_mines b ns acc = Some k ->
  k = acc + Z.of_nat (length (List.filter
                                (fun p => bool_decide (is_mine_at b p.1 p.2 = Some true)) ns)).
Proof.
  revert acc. induction ns as [|[nc nr] ns IH]; intros acc; simpl.
  - intros [= <-]. lia.
  - rewrite is_mine_at_cell. unfold cell_at.
    destruct (getitem (cells b) (index b nc nr)) as [n|]; [|done]. simpl.
    intros ->%IH. destruct (is_mine (state n)); simpl; lia.
Qed.

(** What one pass of the first loop does to the board. *)
Lemma mark_mine_ok p b b' :
  mark_mine p b = Ok b' ->
  cols b' = cols b /\ rows b' = rows b /\
  (is_inbounds b p.1 p.2 = true ->
   forall c r, is_inbounds b c r = true -> (c, r) <> p ->
               is_mine_at b' c r = is_mine_at b c r).
Proof.
  unfold mark_mine. destruct (modify _ _ _) as [cs|] eqn:E; [|done].
  intros [= <-]. split; [done|]. split; [done|].
  intros Hp c r Hcr Hne. rewrite !is_mine_at_cell. unfold cell_at, index. simpl.
  f_equal. eapply getitem_modify_other; [| |  |exact E].
  - by apply index_nonneg.
  - by apply index_nonneg.
  - intros Heq. apply Hne. destruct p as [pc pr].
    destruct (index_inj b pc pr c r Hp Hcr Heq) as [-> ->]. done.
Qed.

(** What one pass of the adjacency loops does to the board. *)
Lemma adjacency_step_ok r c b b' :
  adjacency_step r c b = Ok b' ->
  cols b' = cols b /\ rows b' = rows b /\ mines b' = mines b /\
  (is_inbounds b c r = true ->
   (exists cell, cell_at b' c r = Some cell /\
                 (is_mine (state cell) = false ->
                  adjacent (state cell) = mine_neighbors b c r)) /\
   (forall c' r', is_inbounds b c' r' = true -> (c', r') <> (c, r) ->
                  cell_at b' c' r' = cell_at b c' r')).
Proof.
  unfold adjacency_step.
  destruct (getitem (cells b) (index b c r)) as [cell|] eqn:G; [|done].
  destruct (is_mine (state cell)) eqn:M.
  { intros [= <-]. split; [done|]. split; [done|]. split; [done|].
    intros _. split; [|done]. exists cell. split; [done|]. congruence. }
  destruct (count_mines b (neighbors b c r) 0) as [k|] eqn:K; [|done].
  destruct (modify _ _ _) as [cs|] eqn:E; [|done]. intros [= <-].
  split; [done|]. split; [done|]. split.
  { unfold mines. simpl. by eapply modify_fmap_same; [|exact E]. }
  intros Hcr. split.
  - exists (set_adjacent k cell). split.
    + unfold cell_at, index. simpl. by eapply getitem_modify_same.
    + intros _. simpl. apply count_mines_spec in K. unfold mine_neighbors. lia.
  - intros c' r' Hcr' Hne. unfold cell_at, index. simpl.
    eapply getitem_modify_other; [| | |exact E].
    + by apply index_nonneg.
    + by apply index_nonneg.
    + intros Heq. apply Hne.
      destruct (index_inj b c r c' r' Hcr Hcr' Heq) as [-> ->]. done.
Qed.

Lemma adjacency_step_keeps b0 r c c' r' b b' :
  same_mines b0 b -> is_inbounds b0 c r = true -> is_inbounds b0 c' r' = true ->
  adjacency_set b c' r' -> adjacency_step r c b = Ok b' -> adjacency_set b' c' r'.
Proof.
  intros (Hc & Hr & Hm) Hcr Hcr' Hset Hstep.
  destruct (adjacency_step_ok _ _ _ _ Hstep) as (Hc' & Hr' & Hm' & Hin).
  rewrite <- (is_inbounds_layout b0 b) in Hcr, Hcr' by done.
  destruct (Hin Hcr) as [(cell & Hcell & Hadj) Hother].
  destruct (decide ((c', r') = (c, r))) as [[= -> ->]|Hne].
  - exists cell. split; [done|]. intros Hnm.
    rewrite (mine_neighbors_layout b b') by done. split; [by apply Hadj|].
    rewrite Hadj by done. apply mine_neighbors_bounds.
  - destruct Hset as (cell' & Hcell' & Hadj'). exists cell'.
    rewrite Hother by done. split; [done|].
    rewrite (mine_neighbors_layout b b') by done. done.
Qed.

Lemma adjacency_step_sets b0 r c b b' :
  same_mines b0 b -> is_inbounds b0 c r = true ->
  adjacency_step r c b = Ok b' -> same_mines b0 b' /\ adjacency_set b' c r.
Proof.
  intros (Hc & Hr & Hm) Hcr Hstep.
  destruct (adjacency_step_ok _ _ _ _ Hstep) as (Hc' & Hr' & Hm' & Hin).
  split; [unfold same_mines; repeat split; congruence|].
  rewrite <- (is_inbounds_layout b0 b) in Hcr by done.
  destruct (Hin Hcr) as [(cell & Hcell & Hadj) _].
  exists cell. split; [done|]. intros Hnm.
  rewrite (mine_neighbors_layout b b') by done. split; [by apply Hadj|].
  rewrite Hadj by done. apply mine_neighbors_bounds.
Qed.

Lemma same_mines_refl b : same_mines b b.
Proof. done. Qed.

(** The inner adjacency loop, over the columns of row [r]. *)
Lemma adjacency_row_sets b0 r b b' :
  same_mines b0 b -> 0 <= r < rows b0 ->
  for_each (adjacency_step r) (range (cols b)) b = Ok b' ->
  same_mines b0 b' /\ forall c, c ∈ range (cols b) -> adjacency_set b' c r.
Proof.
  intros Hsame Hr.
  assert (cols b = cols b0) as Hc by apply Hsame.
  apply (for_each_establishes (adjacency_step r) (same_mines b0)
                              (fun c s => adjacency_set s c r)); [| |done].
  - intros c s s' Hc'%range_spec Hs Hstep.
    eapply adjacency_step_sets; eauto. apply is_inbounds_spec. lia.
  - intros c c' s s' Hx%range_spec Hy%range_spec Hs HQ Hstep.
    eapply (adjacency_step_keeps b0 r c' c r); eauto; apply is_inbounds_spec; lia.
Qed.

Lemma adjacency_row_keeps b0 r c' r' b b' :
  same_mines b0 b -> 0 <= r < rows b0 -> is_inbounds b0 c' r' = true ->
  adjacency_set b c' r' ->
  for_each (adjacency_step r) (range (cols b)) b = Ok b' -> adjacency_set b' c' r'.
Proof.
  intros Hsame Hr Hin Hset Hloop.
  assert (cols b = cols b0) as Hc by apply Hsame.
  apply (for_each_keeps (adjacency_step r)
                        (fun s => same_mines b0 s /\ adjacency_set s c' r')
                        (range (cols b)) ) with (s := b) (s' := b'); [|done|done].
  intros c s s' Hc'%range_spec [Hs HQ] Hstep.
  assert (is_inbounds b0 c r = true) by (apply is_inbounds_spec; lia).
  split.
  - eapply adjacency_step_sets; eauto.
  - eapply (adjacency_step_keeps b0 r c c' r'); eauto.
Qed.

(** Step 4 of [place_mines] leaves grid and mines alone and sets the adjacency
    of every cell of the grid. *)
Lemma adjacency_loops_ok b b' :
  adjacency_loops b = Ok b' ->
  same_mines b b' /\ forall c r, is_inbounds b c r = true -> adjacency_set b' c r.
Proof.
  unfold adjacency_loops. intros Hloop.
  destruct (for_each_establishes
              (fun r b' => for_each (adjacency_step r) (range (cols b')) b')
              (same_mines b)
              (fun r s => forall c, 0 <= c < cols b -> adjacency_set s c r)
              (range (rows b))) with (s := b) (s' := b') as [Hsame Hall];
    [| |apply same_mines_refl|done|].
  - intros r s s' Hr%range_spec Hs Hrow.
    destruct (adjacency_row_sets b r s s' Hs Hr Hrow) as [Hs' Hset].
    split; [done|]. intros c Hc. apply Hset, range_spec.
    destruct Hs as [-> _]. done.
  - intros r r' s s' Hr%range_spec Hr'%range_spec Hs HQ Hrow c Hc.
    eapply (adjacency_row_keeps b r' c r); eauto. apply is_inbounds_spec. lia.
  - split; [done|]. intros c r [Hc Hr]%is_inbounds_spec.
    apply Hall; [by apply range_spec|done].
Qed.

(** The two phases of a call of [place_mines] that returns. *)
Lemma place_mines_ok safe_col safe_row w w' :
  place_mines safe_col safe_row w = Ok w' ->
  exists mine_locs b1,
    (forall p, p ∈ mine_locs ->
               is_inbounds (board w) p.1 p.2 = true /\
               p ∉ safe_zone (board w) safe_col safe_row) /\
    for_each mark_mine mine_locs (board w) = Ok b1 /\
    adjacency_loops b1 = Ok (board w').
Proof.
  unfold place_mines.
  destruct (sample _ _ _) as [[mine_locs gen]|] eqn:Hs; [|done].
  destruct (for_each mark_mine mine_locs (board w)) as [b1|] eqn:H1; simpl; [|done].
  destruct (adjacency_loops b1) as [b2|] eqn:H2; [|done]. intros [= <-].
  exists mine_locs, b1. split; [|done].
  intros p Hp. eapply sample_elem in Hp; [|exact Hs].
  apply list_elem_of_filter in Hp as [Hnot Hpos]. split.
  - by apply positions_spec.
  - intros Hzone. by apply Hnot.
Qed.

(** The first loop of [place_mines] keeps the grid, and keeps the [is_mine]
    of every cell it was not asked to mark. *)
Lemma mark_mines_ok mine_locs b b1 :
  (forall p, p ∈ mine_locs -> is_inbounds b p.1 p.2 = true) ->
  for_each mark_mine mine_locs b = Ok b1 ->
  cols b1 = cols b /\ rows b1 = rows b /\
  forall c r, is_inbounds b c r = true -> (c, r) ∉ mine_locs ->
              is_mine_at b1 c r = is_mine_at b c r.
Proof.
  intros Hin Hloop.
  apply (for_each_keeps mark_mine
           (fun s => cols s = cols b /\ rows s = rows b /\
                     forall c r, is_inbounds b c r = true -> (c, r) ∉ mine_locs ->
                                 is_mine_at s c r = is_mine_at b c r)
           mine_locs) with (s := b) (s' := b1); [|done|done].
  intros p s s' Hp (Hc & Hr & Hkeep) Hmark.
  destruct (mark_mine_ok _ _ _ Hmark) as (Hc' & Hr' & Hother).
  split; [congruence|]. split; [congruence|]. intros c r Hcr Hnot.
  rewrite <- Hkeep by done. apply Hother.
  - rewrite (is_inbounds_layout b s) by done. by apply Hin.
  - by rewrite (is_inbounds_layout b s).
  - intros E. apply Hnot. by rewrite E.
Qed.

(** A new board holds no mine. *)
Lemma Board_init_no_mine cols rows mines c r :
  is_mine_at (Board_init cols rows mines) c r <> Some true.
Proof.
  rewrite is_mine_at_cell. unfold cell_at.
  destruct (getitem _ _) as [cell|] eqn:G; [|done].
  apply getitem_Some in G as (n & _ & Hl). apply list_elem_of_lookup_2 in Hl.
  simpl in Hl. apply list_elem_of_bind in Hl as (r' & Hl & _).
  apply list_elem_of_bind in Hl as (c' & ->%list_elem_of_singleton & _). done.
Qed.

(** C5: once [place_mines] has returned, the cell of every position of the
    grid is there and, when its [is_mine] is false, its [adjacent] is the
    number of its in-bounds neighbours whose [is_mine] is true, a value
    between 0 and 8. *)
Theorem place_mines_adjacency safe_col safe_row w w' :
  place_mines safe_col safe_row w = Ok w' ->
  forall c r, is_inbounds (board w') c r = true ->
    exists cell, cell_at (board w') c r = Some cell /\
                 (is_mine (state cell) = false ->
                  adjacent (state cell) = mine_neighbors (board w') c r /\
                  0 <= adjacent (state cell) <= 8).
Proof.
  intros (mine_locs & b1 & _ & _ & Hadj)%place_mines_ok c r Hcr.
  destruct (adjacency_loops_ok _ _ Hadj) as [(Hc & Hr & _) Hset].
  apply Hset. by rewrite <- (is_inbounds_layout b1 (board w')).
Qed.

Lemma place_mines_adjacency_witness :
  let w := new_game 3 1 1 [] in
  let w' := after (place_mines 0 0 w) in
  place_mines 0 0 w = Ok w' /\ is_inbounds (board w') 1 0 = true /\
  exists cell, cell_at (board w') 1 0 = Some cell /\
               (is_mine (state cell) = false ->
                adjacent (state cell) = mine_neighbors (board w') 1 0 /\
                0 <= adjacent (state cell) <= 8).
Proof.
  intros w w'. split; [vm_compute; reflexivity|]. split; [vm_compute; reflexivity|].
  apply (place_mines_adjacency 0 0 w w'); vm_compute; reflexivity.
Defined.

(** [place_mines] puts no mine in a safe zone that had none. *)
Lemma safe_zone_stays_clear safe_col safe_row w w' :
  is_inbounds (board w) safe_col safe_row = true ->
  (forall c r, (c, r) ∈ safe_zone (board w) safe_col safe_row ->
               is_mine_at (board w) c r <> Some true) ->
  place_mines safe_col safe_row w = Ok w' ->
  forall c r, (c, r) ∈ safe_zone (board w') safe_col safe_row ->
              is_mine_at (board w') c r = Some false.
Proof.
  intros Hsafe Hclear (mine_locs & b1 & Hlocs & Hmark & Hadj)%place_mines_ok c r Hzone.
  destruct (mark_mines_ok mine_locs (board w) b1 ltac:(intros; by apply Hlocs) Hmark)
    as (Hc1 & Hr1 & Hkeep).
  destruct (adjacency_loops_ok _ _ Hadj) as [(Hc2 & Hr2 & Hm2) Hset].
  assert (safe_zone (board w') safe_col safe_row
          = safe_zone (board w) safe_col safe_row) as Hz.
  { unfold safe_zone. f_equal. apply neighbors_layout; congruence. }
  rewrite Hz in Hzone.
  assert (is_inbounds (board w) c r = true) as Hcr.
  { unfold safe_zone in Hzone. apply elem_of_cons in Hzone as [[= -> ->]|Hn]; [done|].
    by apply neighbors_inbounds in Hn. }
  assert (is_mine_at (board w') c r <> Some true) as Hnot.
  { rewrite (is_mine_at_layout b1 (board w')) by done.
    rewrite Hkeep; [by apply Hclear|done|].
    intros Hin. by apply Hlocs in Hin as [_ ?]. }
  destruct (Hset c r) as (cell & Hcell & _).
  { by rewrite (is_inbounds_layout (board w) b1). }
  rewrite is_mine_at_cell, Hcell in Hnot |- *. simpl in *.
  destruct (is_mine (state cell)); congruence.
Qed.

(** On a new board the precondition holds: the first click is safe. *)
Corollary new_game_first_click_safe cols rows mines gen safe_col safe_row w' :
  is_inbounds (Board_init cols rows mines) safe_col safe_row = true ->
  place_mines safe_col safe_row (new_game cols rows mines gen) = Ok w' ->
  forall c r, (c, r) ∈ safe_zone (board w') safe_col safe_row ->
              is_mine_at (board w') c r = Some false.
Proof.
  intros Hin Hplace.
  apply (safe_zone_stays_clear safe_col safe_row (new_game cols rows mines gen) w');
    [exact Hin| |exact Hplace].
  intros c r _. apply Board_init_no_mine.
Qed.

(** The guarantee belongs to the placement, which the game makes once per
    board: [place_mines] marks cells and never clears one.  Were it called a
    second time, on a 5x1 board whose mine the first call put at (4,0), now
    around (4,0), the cell (4,0) would still be a mine. *)
Lemma place_mines_twice_keeps_mine :
  let w := after (place_mines 0 0 (new_game 5 1 1 [2%nat])) in
  let w' := after (place_mines 4 0 w) in
  reachable w /\ is_inbounds (board w) 4 0 = true /\
  place_mines 4 0 w = Ok w' /\
  (4, 0) ∈ safe_zone (board w') 4 0 /\ is_mine_at (board w') 4 0 = Some true.
Proof.
  intros w w'. split; [apply reach_place_mines, reach_init|].
  split; [vm_compute; reflexivity|]. split; [vm_compute; reflexivity|].
  split; [left|vm_compute; reflexivity].
Qed.

(** ** What [place_mines] leaves alone *)

Lemma placed_or_kept_refl b : placed_or_kept b b.
Proof. by left. Qed.

Lemma placed_or_kept_trans b1 b2 b3 :
  placed_or_kept b1 b2 -> placed_or_kept b2 b3 -> placed_or_kept b1 b3.
Proof. unfold placed_or_kept. intros [?|?] [?|?]; intuition congruence. Qed.

Lemma bind_rel {S} (R : S -> S -> Prop) (r : Result S) (k : S -> Result S) s :
  (forall s1 s2 s3, R s1 s2 -> R s2 s3 -> R s1 s3) ->
  R s (after r) -> (forall s', R s' (after (k s'))) -> R s (after (bind r k)).
Proof. intros Htrans Hr Hk. destruct r as [s'|e s']; simpl in *; eauto. Qed.

(** The relation between the boards before and after a step of [place_mines]. *)
Lemma mark_mine_frame p b :
  outside_placement (after (mark_mine p b)) = outside_placement b /\
  placed_or_kept b (after (mark_mine p b)).
Proof.
  unfold mark_mine. destruct (modify _ _ _) as [cs|] eqn:E; simpl.
  - split; [|by right]. unfold outside_placement, revealed_flags, flagged_flags. simpl.
    rewrite (modify_fmap_same (fun cell => is_revealed (state cell)) _ _ (set_is_mine true) _
                              ltac:(done) E).
    rewrite (modify_fmap_same (fun cell => is_flagged (state cell)) _ _ (set_is_mine true) _
                              ltac:(done) E).
    done.
  - split; [done|by left].
Qed.

Lemma adjacency_step_frame r c b :
  outside_placement (after (adjacency_step r c b)) = outside_placement b /\
  placed_or_kept b (after (adjacency_step r c b)).
Proof.
  unfold adjacency_step.
  destruct (getitem _ _) as [cell|]; simpl; [|split; [done|by left]].
  destruct (is_mine (state cell)); simpl; [split; [done|by left]|].
  destruct (count_mines _ _ _) as [k|]; simpl; [|split; [done|by left]].
  destruct (modify _ _ _) as [cs|] eqn:E; simpl; [|split; [done|by left]].
  split; [|by left]. unfold outside_placement, revealed_flags, flagged_flags. simpl.
  rewrite (modify_fmap_same (fun cell => is_revealed (state cell)) _ _ (set_adjacent k) _
                            ltac:(done) E).
  rewrite (modify_fmap_same (fun cell => is_flagged (state cell)) _ _ (set_adjacent k) _
                            ltac:(done) E).
  done.
Qed.

(** [place_mines], returning or raising, assigns nothing but [is_mine],
    [adjacent] and [mines_placed], and the latter nothing but [True]. *)
Lemma place_mines_frame c r w :
  outside_placement (board (after (place_mines c r w))) = outside_placement (board w) /\
  placed_or_kept (board w) (board (after (place_mines c r w))).
Proof.
  set (R := fun b b' : Board =>
              outside_placement b' = outside_placement b /\ placed_or_kept b b').
  assert (forall b, R b b) as Hrefl by (intros; split; [done|apply placed_or_kept_refl]).
  assert (forall b1 b2 b3, R b1 b2 -> R b2 b3 -> R b1 b3) as Htrans.
  { intros b1 b2 b3 [H1 K1] [H2 K2]. split; [congruence|].
    by eapply placed_or_kept_trans. }
  unfold place_mines. destruct (sample _ _ _) as [[mine_locs gen]|]; [|by apply Hrefl].
  assert (R (board w) (after (bind (for_each mark_mine mine_locs (board w))
                                   adjacency_loops))) as HR.
  { apply bind_rel; [done| |].
    - apply for_each_rel; [done|done|]. intros p s _. apply mark_mine_frame.
    - intros b1. unfold adjacency_loops. apply for_each_rel; [done|done|].
      intros r' s _. apply for_each_rel; [done|done|].
      intros c' s' _. apply adjacency_step_frame. }
  destruct (bind _ _); exact HR.
Qed.

Lemma place_mines_verdict c r w :
  game_over (board (after (place_mines c r w))) = game_over (board w) /\
  win (board (after (place_mines c r w))) = win (board w).
Proof.
  destruct (place_mines_frame c r w) as [H _].
  unfold outside_placement in H. by injection H.
Qed.

(** ** Hidden cells *)

Lemma hidden_flags b : hidden b = length (List.filter negb (revealed_flags b)).
Proof.
  unfold hidden, revealed_flags. induction (cells b) as [|cell l IH]; [done|].
  simpl. destruct (is_revealed (state cell)); simpl; by rewrite IH.
Qed.

Lemma place_mines_hidden c r w :
  hidden (board (after (place_mines c r w))) = hidden (board w).
Proof.
  rewrite !hidden_flags. destruct (place_mines_frame c r w) as [H _].
  unfold outside_placement in H. injection H as _ _ _ _ _ _ _ -> _. done.
Qed.

(** Revealing a cell that was not revealed leaves one hidden cell fewer. *)
Lemma hidden_open b idx cell cs :
  getitem (cells b) idx = Some cell -> is_revealed (state cell) = false ->
  modify (cells b) idx (set_is_revealed true) = Some cs ->
  S (hidden (set_cells cs b)) = hidden b.
Proof.
  intros (n & Hs & Hl)%getitem_Some Hrev (n' & x & Hs' & Hl' & ->)%modify_Some.
  assert (n' = n) as -> by congruence. assert (x = cell) as -> by congruence.
  unfold hidden. simpl. clear Hs Hs' Hl'. revert n Hl.
  induction (cells b) as [|a l IH]; intros [|n] Hl; simpl in *; try done.
  - injection Hl as ->. by rewrite Hrev.
  - destruct (is_revealed (state a)); simpl; rewrite <- (IH n Hl); done.
Qed.

(** Revealing more cells, whichever, does not add hidden ones. *)
Lemma hidden_reveal_some (f : Cell -> Cell) b :
  (forall cell, is_revealed (state cell) = true -> is_revealed (state (f cell)) = true) ->
  (hidden (set_cells (f <$> cells b) b) <= hidden b)%nat.
Proof.
  intros Hf. unfold hidden. simpl. induction (cells b) as [|a l IH]; [done|].
  rewrite fmap_cons. cbn [List.filter].
  destruct (is_revealed (state a)) eqn:Ha; simpl.
  - rewrite (Hf a Ha). done.
  - destruct (is_revealed (state (f a))); simpl; lia.
Qed.

Lemma hidden_reveal_all_mines b : (hidden (_reveal_all_mines b) <= hidden b)%nat.
Proof.
  apply hidden_reveal_some. intros cell H. by destruct (is_mine (state cell)).
Qed.

Lemma hidden_check_win b : (hidden (_check_win b) <= hidden b)%nat.
Proof.
  unfold _check_win. destruct (_ && _); [|done].
  apply (hidden_reveal_some _ (set_win true b)). intros cell H. rewrite H. done.
Qed.

(** ** The calls of [reveal] on itself *)

Section RevealRelation.
(** A relation between the worlds before and after that each step of
    [reveal] respects holds across a call, however deep it goes and
    whether it returns or raises. *)
Variable R : World -> World -> Prop.
Hypothesis R_refl : forall w, R w w.
Hypothesis R_trans : forall w1 w2 w3, R w1 w2 -> R w2 w3 -> R w1 w3.
Hypothesis R_place : forall c r w,
    mines_placed (board w) = Some false -> R w (after (place_mines c r w)).
Hypothesis R_open : forall w idx cell cs,
    getitem (cells (board w)) idx = Some cell ->
    is_revealed (state cell) = false ->
    modify (cells (board w)) idx (set_is_revealed true) = Some cs ->
    R w (set_board (set_cells cs (board w)) w).
Hypothesis R_hit : forall w, R w (hit_mine w).
Hypothesis R_check : forall w, R w (check_win w).

Section Body.
Variable rev : Z -> Z -> World -> option Outcome.
Hypothesis R_rev : forall nc nr w o, rev nc nr w = Some o -> R w (after o).

Lemma reveal_each_rel ns w o : reveal_each rev ns w = Some o -> R w (after o).
Proof.
  revert w. induction ns as [|[nc nr] ns IH]; intros w; simpl.
  - intros [= <-]. apply R_refl.
  - destruct (rev nc nr w) as [[w'|e w']|] eqn:E; [| |done].
    + intros H. eapply R_trans; [exact (R_rev _ _ _ _ E)|by apply IH].
    + intros [= <-]. exact (R_rev _ _ _ _ E).
Qed.

Lemma reveal_cell_rel col row w o : reveal_cell rev col row w = Some o -> R w (after o).
Proof.
  unfold reveal_cell.
  destruct (getitem _ _) as [cell|] eqn:G; [|intros [= <-]; apply R_refl].
  destruct (is_revealed (state cell) || is_flagged (state cell)) eqn:Hrf;
    [intros [= <-]; apply R_refl|].
  apply orb_false_iff in Hrf as [Hr _].
  destruct (modify _ _ _) as [cs|] eqn:M; [|intros [= <-]; apply R_refl].
  pose proof (R_open w _ _ _ G Hr M) as Hopen.
  destruct (is_mine (state cell)).
  { intros [= <-]. eapply R_trans; [exact Hopen|apply R_hit]. }
  destruct (bool_decide (adjacent (state cell) = 0)).
  - destruct (reveal_each _ _ _) as [[w3|e w3]|] eqn:F; intros [= <-].
    + eapply R_trans; [exact Hopen|]. eapply R_trans; [|apply R_check].
      exact (reveal_each_rel _ _ _ F).
    + eapply R_trans; [exact Hopen|]. exact (reveal_each_rel _ _ _ F).
  - intros [= <-]. eapply R_trans; [exact Hopen|apply R_check].
Qed.

Lemma reveal_body_rel col row w o : reveal_body rev col row w = Some o -> R w (after o).
Proof.
  unfold reveal_body.
  destruct (is_inbounds _ _ _); simpl; [|intros [= <-]; apply R_refl].
  destruct (mines_placed (board w)) as [[|]|] eqn:Hmp; simpl.
  - apply reveal_cell_rel.
  - pose proof (R_place col row w Hmp) as Hplace.
    destruct (place_mines col row w) as [w1|e w1]; simpl in Hplace.
    + intros H. eapply R_trans; [exact Hplace|by eapply reveal_cell_rel].
    + by intros [= <-].
  - intros [= <-]. apply R_refl.
Qed.
End Body.

Lemma reveal_n_rel fuel col row w o : reveal_n fuel col row w = Some o -> R w (after o).
Proof.
  revert col row w o. induction fuel as [|fuel IH]; intros col row w o; simpl; [done|].
  by apply reveal_body_rel.
Qed.
End RevealRelation.

(** A call of [reveal] does not add hidden cells. *)
Lemma reveal_n_hidden fuel col row w o :
  reveal_n fuel col row w = Some o ->
  (hidden (board (after o)) <= hidden (board w))%nat.
Proof.
  apply (reveal_n_rel (fun w w' => (hidden (board w') <= hidden (board w))%nat)).
  - done.
  - intros; lia.
  - intros c r w0 _. by rewrite place_mines_hidden.
  - intros w0 idx cell cs G Hr M. simpl. rewrite <- (hidden_open _ _ _ _ G Hr M). lia.
  - intros w0. simpl. etrans; [apply hidden_reveal_all_mines|]. done.
  - intros w0. simpl. apply hidden_check_win.
Qed.

(** More depth does not change what a call that had enough depth did. *)
Section MoreDepth.
Variables rev rev' : Z -> Z -> World -> option Outcome.
Hypothesis rev_le : forall nc nr w o, rev nc nr w = Some o -> rev' nc nr w = Some o.

Lemma reveal_each_mono ns w o :
  reveal_each rev ns w = Some o -> reveal_each rev' ns w = Some o.
Proof.
  revert w. induction ns as [|[nc nr] ns IH]; intros w; simpl; [done|].
  destruct (rev nc nr w) as [[w'|e w']|] eqn:E; [| |done];
    rewrite (rev_le _ _ _ _ E); [apply IH|done].
Qed.

Lemma reveal_cell_mono col row w o :
  reveal_cell rev col row w = Some o -> reveal_cell rev' col row w = Some o.
Proof.
  unfold reveal_cell.
  destruct (getitem _ _) as [cell|]; [|done].
  destruct (_ || _); [done|]. destruct (modify _ _ _) as [cs|]; [|done].
  destruct (is_mine _); [done|]. destruct (bool_decide _); [|done].
  destruct (reveal_each rev _ _) as [[w3|e w3]|] eqn:F; [| |done];
    by rewrite (reveal_each_mono _ _ _ F).
Qed.

Lemma reveal_body_mono col row w o :
  reveal_body rev col row w = Some o -> reveal_body rev' col row w = Some o.
Proof.
  unfold reveal_body. destruct (negb _); [done|].
  destruct (mines_placed _) as [placed|]; [|done].
  destruct (if negb placed then _ else _); [apply reveal_cell_mono|done].
Qed.
End MoreDepth.

Lemma reveal_n_mono fuel k col row w o :
  reveal_n fuel col row w = Some o -> reveal_n (fuel + k) col row w = Some o.
Proof.
  revert col row w o. induction fuel as [|fuel IH]; intros col row w o; simpl; [done|].
  apply reveal_body_mono. exact IH.
Qed.

(** A depth above the number of hidden cells is enough. *)
Section EnoughDepth.
Variable rev : Z -> Z -> World -> option Outcome.
Variable depth : nat.
Hypothesis rev_enough : forall nc nr w,
    (hidden (board w) < depth)%nat -> is_Some (rev nc nr w).
Hypothesis rev_hidden : forall nc nr w o,
    rev nc nr w = Some o -> (hidden (board (after o)) <= hidden (board w))%nat.

Lemma reveal_each_enough ns w :
  (hidden (board w) < depth)%nat -> is_Some (reveal_each rev ns w).
Proof.
  revert w. induction ns as [|[nc nr] ns IH]; intros w Hw; simpl; [done|].
  destruct (rev_enough nc nr w Hw) as [[w'|e w'] E]; rewrite E; [|done].
  apply IH. apply rev_hidden in E. simpl in E. lia.
Qed.

Lemma reveal_cell_enough col row w :
  (hidden (board w) < S depth)%nat -> is_Some (reveal_cell rev col row w).
Proof.
  intros Hw. unfold reveal_cell.
  destruct (getitem _ _) as [cell|] eqn:G; [|done].
  destruct (is_revealed (state cell) || is_flagged (state cell)) eqn:Hrf; [done|].
  apply orb_false_iff in Hrf as [Hr _].
  destruct (modify _ _ _) as [cs|] eqn:M; [|done].
  destruct (is_mine _); [done|]. destruct (bool_decide _); [|done].
  destruct (reveal_each_enough (neighbors (board (set_board (set_cells cs (board w)) w))
                                          col row)
                               (set_board (set_cells cs (board w)) w))
    as [[w3|e w3] ->]; [|done|done].
  simpl. pose proof (hidden_open _ _ _ _ G Hr M). lia.
Qed.

Lemma reveal_body_enough col row w :
  (hidden (board w) < S depth)%nat -> is_Some (reveal_body rev col row w).
Proof.
  intros Hw. unfold reveal_body. destruct (negb _); [done|].
  destruct (mines_placed _) as [[|]|]; simpl; [by apply reveal_cell_enough| |done].
  pose proof (place_mines_hidden col row w) as Hp.
  destruct (place_mines col row w) as [w1|e w1]; simpl in Hp; [|done].
  apply reveal_cell_enough. lia.
Qed.
End EnoughDepth.

Lemma reveal_n_enough fuel col row w :
  (hidden (board w) < fuel)%nat -> is_Some (reveal_n fuel col row w).
Proof.
  revert col row w. induction fuel as [|fuel IH]; intros col row w Hw; [lia|].
  simpl. apply (reveal_body_enough _ fuel); [|exact (reveal_n_hidden fuel)|done].
  intros nc nr w' Hw'. by apply IH.
Qed.

(** [reveal] is the call at any depth above the number of hidden cells. *)
Lemma reveal_n_reveal col row w :
  reveal_n (S (hidden (board w))) col row w = Some (reveal col row w).
Proof.
  unfold reveal.
  destruct (reveal_n_enough (S (hidden (board w))) col row w ltac:(lia)) as [o ->].
  done.
Qed.

(** C10: every call of [reveal] terminates, on every world and at every
    pair of integers: nested no deeper than the number of hidden cells plus
    one, the calls on the neighbours have all completed, with the same result
    at any greater depth, and no cell is hidden again, since a call goes on
    to the neighbours only from a cell that it has just revealed. *)
Theorem reveal_terminates col row w k :
  reveal_n (S (hidden (board w)) + k) col row w = Some (reveal col row w) /\
  (hidden (board (after (reveal col row w))) <= hidden (board w))%nat.
Proof.
  split.
  - apply reveal_n_mono, reveal_n_reveal.
  - eapply reveal_n_hidden, reveal_n_reveal.
Qed.

(** ** Out-of-bounds calls *)

Lemma reveal_out_of_bounds col row w :
  is_inbounds (board w) col row = false -> reveal col row w = Ok w.
Proof.
  intros Hout. unfold reveal. simpl. unfold reveal_body. by rewrite Hout.
Qed.

Lemma toggle_flag_out_of_bounds col row w :
  is_inbounds (board w) col row = false -> toggle_flag col row w = Ok w.
Proof. intros Hout. unfold toggle_flag. by rewrite Hout. Qed.

(** ** The attribute [mines_placed] *)

(** On a board that nothing has placed mines on, an in-bounds [reveal] stops
    at the read of [self.mines_placed]. *)
Lemma reveal_unset_attribute col row w :
  is_inbounds (board w) col row = true -> mines_placed (board w) = None ->
  reveal col row w = Err AttributeError w.
Proof.
  intros Hin Hmp. unfold reveal. simpl. unfold reveal_body. by rewrite Hin, Hmp.
Qed.

Lemma toggle_flag_frame col row w :
  let b := board w in let b' := board (after (toggle_flag col row w)) in
  mines_placed b' = mines_placed b /\ game_over b' = game_over b /\ win b' = win b /\
  revealed_count b' = revealed_count b /\ mines b' = mines b /\
  cols b' = cols b /\ rows b' = rows b /\ num_mines b' = num_mines b.
Proof.
  unfold toggle_flag. destruct (negb _); [done|].
  destruct (getitem _ _) as [cell|]; [|done].
  destruct (is_revealed _); [done|].
  destruct (modify _ _ _) as [cs|] eqn:M; [|done]. simpl.
  repeat (split; [done|]). split; [|done]. unfold mines. simpl.
  by eapply modify_fmap_same; [|exact M].
Qed.

Lemma check_win_mines_placed b : mines_placed (_check_win b) = mines_placed b.
Proof. unfold _check_win. by destruct (_ && _). Qed.

(** [reveal] assigns [mines_placed] only through [place_mines]. *)
Lemma reveal_placed_or_kept col row w :
  placed_or_kept (board w) (board (after (reveal col row w))).
Proof.
  apply (reveal_n_rel (fun w w' => placed_or_kept (board w) (board w')))
    with (fuel := S (hidden (board w))) (col := col) (row := row);
    [| | | | | |apply reveal_n_reveal].
  - intros; apply placed_or_kept_refl.
  - intros ? ? ?; apply placed_or_kept_trans.
  - intros c r w0 _. apply place_mines_frame.
  - intros; by left.
  - intros; by left.
  - intros w0. left. apply check_win_mines_placed.
Qed.

(** No board ever has [mines_placed] false: the attribute is absent or true. *)
Lemma reachable_mines_placed w :
  reachable w -> mines_placed (board w) <> Some false.
Proof.
  induction 1 as [| m w Hw IH | c r w Hw IH | w Hw IH | w Hw IH | w Hw IH]; simpl.
  - done.
  - destruct m as [c r|c r]; simpl.
    + destruct (reveal_placed_or_kept c r w) as [->| ->]; done.
    + destruct (toggle_flag_frame c r w) as [-> _]. done.
  - destruct (place_mines_frame c r w) as [_ [->| ->]]; done.
  - done.
  - done.
  - by rewrite check_win_mines_placed.
Qed.

(** ** Flagged cells *)

(** On every board, [reveal] at an in-bounds cell that is flagged and not
    revealed changes nothing: the world after the call, every attribute of
    every cell and of the board included, is the world before it.  Once mines
    have been placed the call returns; before that it raises at the read of
    [mines_placed], without having changed anything. *)
Lemma reveal_flagged_noop col row w cell :
  reachable w ->
  is_inbounds (board w) col row = true ->
  cell_at (board w) col row = Some cell ->
  is_flagged (state cell) = true ->
  is_revealed (state cell) = false ->
  after (reveal col row w) = w /\
  (mines_placed (board w) = Some true -> reveal col row w = Ok w).
Proof.
  intros Hreach Hin Hcell Hflag Hrev.
  pose proof (reachable_mines_placed w Hreach) as Hmp.
  unfold reveal. simpl. unfold reveal_body. rewrite Hin. simpl.
  destruct (mines_placed (board w)) as [[|]|]; simpl; [|done|done].
  unfold reveal_cell. unfold cell_at in Hcell. rewrite Hcell, Hflag, orb_true_r. done.
Qed.

Lemma reveal_flagged_noop_witness :
  let w := after (toggle_flag 1 0 (after (place_mines 0 0 (new_game 3 1 1 [])))) in
  let cell := mkCell 1 0 (mkCellState false false true 1) in
  reachable w /\ is_inbounds (board w) 1 0 = true /\
  cell_at (board w) 1 0 = Some cell /\
  is_flagged (state cell) = true /\ is_revealed (state cell) = false /\
  after (reveal 1 0 w) = w /\
  (mines_placed (board w) = Some true -> reveal 1 0 w = Ok w).
Proof.
  intros w cell.
  assert (reachable w) as Hreach.
  { apply (reach_move (ToggleFlag 1 0)), reach_place_mines, reach_init. }
  split; [exact Hreach|].
  split; [vm_compute; reflexivity|]. split; [vm_compute; reflexivity|].
  split; [reflexivity|]. split; [reflexivity|].
  apply (reveal_flagged_noop 1 0 w cell Hreach); vm_compute; reflexivity.
Defined.

(** ** [game_over] and [win] *)

Lemma verdict_order_refl w : verdict_order w w.
Proof. done. Qed.

Lemma verdict_order_trans w1 w2 w3 :
  verdict_order w1 w2 -> verdict_order w2 w3 -> verdict_order w1 w3.
Proof.
  intros (G1 & W1 & K1) (G2 & W2 & K2). repeat split.
  - auto.
  - auto.
  - intros H. rewrite K2, K1; auto.
Qed.

Lemma verdict_order_same w w' :
  game_over (board w') = game_over (board w) -> win (board w') = win (board w) ->
  verdict_order w w'.
Proof. intros Hg Hw. unfold verdict_order. rewrite Hg, Hw. done. Qed.

Lemma check_win_verdict w : verdict_order w (check_win w).
Proof.
  unfold verdict_order, check_win, _check_win. simpl.
  destruct (game_over (board w)) eqn:Hg, (bool_decide _); simpl;
    rewrite ?Hg; repeat split; done.
Qed.

Lemma reveal_verdict col row w : verdict_order w (after (reveal col row w)).
Proof.
  apply (reveal_n_rel verdict_order)
    with (fuel := S (hidden (board w))) (col := col) (row := row);
    [| | | | | |apply reveal_n_reveal].
  - apply verdict_order_refl.
  - apply verdict_order_trans.
  - intros c r w0 _. destruct (place_mines_verdict c r w0). by apply verdict_order_same.
  - intros. by apply verdict_order_same.
  - intros w0. unfold verdict_order. simpl. done.
  - apply check_win_verdict.
Qed.

Lemma move_verdict m w : verdict_order w (after (move m w)).
Proof.
  destruct m as [c r|c r]; simpl.
  - apply reveal_verdict.
  - destruct (toggle_flag_frame c r w) as (_ & Hg & Hw & _). by apply verdict_order_same.
Qed.

(** C7, amended: over every sequence of [reveal] and [toggle_flag] calls on
    every board, [game_over] and [win] never go back from true to false, so
    each turns from false to true at most once, and [win] is never set once
    [game_over] is true.  The converse order is possible, so the two can
    both be true. *)
Theorem play_verdict_order ms w :
  (game_over (board w) = true -> game_over (board (after (play ms w))) = true) /\
  (win (board w) = true -> win (board (after (play ms w))) = true) /\
  (game_over (board w) = true -> win (board (after (play ms w))) = win (board w)).
Proof.
  apply (for_each_rel move verdict_order ms verdict_order_refl verdict_order_trans).
  intros m w' _. apply move_verdict.
Qed.

Lemma play_verdict_order_witness :
  let w := after (play [Reveal 2 0]
                       (after (place_mines 0 0 (new_game 3 1 1 [])))) in
  let ms := [ToggleFlag 0 0; Reveal 1 0; Reveal 0 0] in
  game_over (board w) = true /\
  game_over (board (after (play ms w))) = true /\
  win (board (after (play ms w))) = win (board w).
Proof.
  intros w ms.
  assert (game_over (board w) = true) as Hover by (vm_compute; reflexivity).
  destruct (play_verdict_order ms w) as (Hg & _ & Hw).
  split; [exact Hover|]. split; [exact (Hg Hover)|exact (Hw Hover)].
Defined.

(** C7, as stated, fails: [reveal] has no guard on a finished game.  On a 3x1
    board built with three mines, one fits outside the safe zone of (0,0);
    revealing (0,0) opens the two safe cells and sets [win], and revealing
    the mine at (2,0) afterwards sets [game_over] as well. *)
Lemma win_then_game_over :
  let w := after (place_mines 0 0 (new_game 3 1 3 [])) in
  let w' := after (play [Reveal 0 0; Reveal 2 0] w) in
  reachable w /\ game_over (board w) = false /\ win (board w) = false /\
  play [Reveal 0 0; Reveal 2 0] w = Ok w' /\
  game_over (board w') = true /\ win (board w') = true.
Proof.
  intros w w'. split; [apply reach_place_mines, reach_init|].
  repeat split; vm_compute; reflexivity.
Qed.

(** ** The counter [revealed_count] and the win *)

Lemma win_frame_refl b : win_frame b b.
Proof. unfold win_frame. repeat (split; [done|]). by left. Qed.

Lemma win_frame_trans b1 b2 b3 : win_frame b1 b2 -> win_frame b2 b3 -> win_frame b1 b3.
Proof.
  intros (C1 & R1 & N1 & K1 & W1) (C2 & R2 & N2 & K2 & W2).
  unfold win_frame. repeat (split; [congruence|]).
  intros [H|H]%W2; [by apply W1|]. right. rewrite <- K1, <- C1, <- R1, <- N1. done.
Qed.

Lemma win_frame_same b b' :
  cols b' = cols b -> rows b' = rows b -> num_mines b' = num_mines b ->
  revealed_count b' = revealed_count b -> win b' = win b -> win_frame b b'.
Proof.
  intros ? ? ? ? Hw. unfold win_frame. rewrite Hw. repeat (split; [done|]). by left.
Qed.

Lemma place_mines_win_frame c r w : win_frame (board w) (board (after (place_mines c r w))).
Proof.
  destruct (place_mines_frame c r w) as [H _]. unfold outside_placement in H.
  injection H as ? ? ? _ ? _ ? _ _. by apply win_frame_same.
Qed.

Lemma check_win_win_frame b : win_frame b (_check_win b).
Proof.
  unfold _check_win. destruct (bool_decide _) eqn:E; simpl; [|apply win_frame_refl].
  destruct (negb _); simpl; [|apply win_frame_refl].
  apply bool_decide_eq_true in E. unfold win_frame. simpl.
  repeat (split; [done|]). by right.
Qed.

Lemma reveal_win_frame col row w : win_frame (board w) (board (after (reveal col row w))).
Proof.
  apply (reveal_n_rel (fun w w' => win_frame (board w) (board w')))
    with (fuel := S (hidden (board w))) (col := col) (row := row);
    [| | | | | |apply reveal_n_reveal].
  - intros; apply win_frame_refl.
  - intros ? ? ?; apply win_frame_trans.
  - intros c r w0 _. apply place_mines_win_frame.
  - intros. by apply win_frame_same.
  - intros. by apply win_frame_same.
  - intros w0. apply check_win_win_frame.
Qed.

(** Nothing ever assigns [revealed_count] after the constructor, and so [win]
    is true only on a board built with as many mines as it has cells. *)
Lemma reachable_revealed_count w :
  reachable w ->
  revealed_count (board w) = 0 /\
  (win (board w) = true ->
   num_mines (board w) = cols (board w) * rows (board w)).
Proof.
  assert (forall b b', win_frame b b' ->
            revealed_count b = 0 /\ (win b = true -> num_mines b = cols b * rows b) ->
            revealed_count b' = 0 /\ (win b' = true -> num_mines b' = cols b' * rows b'))
    as Hstep.
  { intros b b' (C & R & N & K & W) [H0 Hw]. rewrite C, R, N, K. split; [done|].
    intros [H|H]%W; [by apply Hw|]. lia. }
  induction 1 as [| m w Hw IH | c r w Hw IH | w Hw IH | w Hw IH | w Hw IH]; simpl.
  - done.
  - revert IH. apply Hstep. destruct m as [c r|c r]; simpl.
    + apply reveal_win_frame.
    + destruct (toggle_flag_frame c r w) as (_ & _ & ? & ? & _ & ? & ? & ?).
      by apply win_frame_same.
  - revert IH. apply Hstep, place_mines_win_frame.
  - done.
  - done.
  - revert IH. apply Hstep, check_win_win_frame.
Qed.

(** ** [reveal] and the mines *)

Lemma mines_fmap (f : Cell -> Cell) b :
  (forall cell, is_mine (state (f cell)) = is_mine (state cell)) ->
  mines (set_cells (f <$> cells b) b) = mines b.
Proof.
  intros Hf. unfold mines. simpl. rewrite <- list_fmap_compose.
  apply list_fmap_ext. intros ? cell _. apply Hf.
Qed.

Lemma reveal_all_mines_mines b : mines (_reveal_all_mines b) = mines b.
Proof.
  apply mines_fmap. intros cell. by destruct (is_mine (state cell)) eqn:E.
Qed.

Lemma check_win_mines b : mines (_check_win b) = mines b.
Proof.
  unfold _check_win. destruct (_ && _); [|done].
  apply (mines_fmap _ (set_win true b)). intros cell. by destruct (_ && _).
Qed.

(** On no board of a lifetime does [reveal] get to call [place_mines]: the
    mines are after the call where they were before it. *)
Lemma reveal_keeps_mines col row w :
  reachable w -> mines (board (after (reveal col row w))) = mines (board w).
Proof.
  intros Hreach. apply (reveal_n_rel mines_kept)
    with (fuel := S (hidden (board w))) (col := col) (row := row);
    [| | | | | |apply reveal_n_reveal|by apply reachable_mines_placed].
  - done.
  - intros w1 w2 w3 H12 H23 H1. destruct (H12 H1) as [H2 E2].
    destruct (H23 H2) as [H3 E3]. split; [done|congruence].
  - intros c r w0 Hfalse Hnot. done.
  - intros w0 idx cell cs _ _ M Hnot. split; [done|]. unfold mines. simpl.
    by eapply modify_fmap_same; [|exact M].
  - intros w0 Hnot. split; [done|]. simpl.
    apply (reveal_all_mines_mines (set_game_over true (board w0))).
  - intros w0 Hnot. simpl. split; [by rewrite check_win_mines_placed|].
    apply check_win_mines.
Qed.

(** ** The placement *)

(** Before the placement no call makes a mine: a board without mines has
    none after any calls of [reveal] and [toggle_flag]. *)
Lemma play_before_placement ms w :
  reachable w ->
  (forall c r, is_mine_at (board w) c r <> Some true) ->
  forall c r, is_mine_at (board (after (play ms w))) c r <> Some true.
Proof.
  revert w. induction ms as [|m ms IH]; intros w Hw Hnone c r; [apply Hnone|].
  unfold play. simpl.
  assert (forall c' r', is_mine_at (board (after (move m w))) c' r' <> Some true) as Hm.
  { intros c' r'. rewrite (is_mine_at_layout (board w)); [apply Hnone| |].
    - destruct m as [mc mr|mc mr]; simpl.
      + by destruct (reveal_win_frame mc mr w) as [? _].
      + by destruct (toggle_flag_frame mc mr w) as (_ & _ & _ & _ & _ & ? & _).
    - destruct m as [mc mr|mc mr]; simpl.
      + by apply reveal_keeps_mines.
      + by destruct (toggle_flag_frame mc mr w) as (_ & _ & _ & _ & ? & _). }
  pose proof (reach_move m w Hw) as Hw1.
  destruct (move m w) as [w1|e w1]; simpl in *; [|apply Hm].
  apply (IH w1 Hw1 Hm).
Qed.

(** C4: on every board, whatever calls of [reveal] and [toggle_flag] it has
    seen since it was built, once [place_mines] at an in-bounds
    [(safe_col, safe_row)] has returned, the cell of [(safe_col, safe_row)]
    and every one of its in-bounds neighbours have [is_mine] false. *)
Theorem place_mines_safe_zone ncols nrows nmines gen ms safe_col safe_row w' :
  is_inbounds (board (after (play ms (new_game ncols nrows nmines gen))))
              safe_col safe_row = true ->
  place_mines safe_col safe_row (after (play ms (new_game ncols nrows nmines gen)))
  = Ok w' ->
  forall c r, (c, r) ∈ safe_zone (board w') safe_col safe_row ->
              is_mine_at (board w') c r = Some false.
Proof.
  intros Hin Hplace.
  apply (safe_zone_stays_clear safe_col safe_row
           (after (play ms (new_game ncols nrows nmines gen))) w'); [done| |done].
  intros c r _. apply play_before_placement; [apply reach_init|].
  intros c' r'. apply Board_init_no_mine.
Qed.

Lemma place_mines_safe_zone_witness :
  let w := after (play [ToggleFlag 1 0; Reveal 3 0] (new_game 5 1 1 [2%nat])) in
  let w' := after (place_mines 0 0 w) in
  is_inbounds (board w) 0 0 = true /\ place_mines 0 0 w = Ok w' /\
  (1, 0) ∈ safe_zone (board w') 0 0 /\ is_mine_at (board w') 1 0 = Some false.
Proof.
  intros w w'. split; [vm_compute; reflexivity|]. split; [vm_compute; reflexivity|].
  assert ((1, 0) ∈ safe_zone (board w') 0 0) as Hzone.
  { apply list_elem_of_In. vm_compute. right; left. reflexivity. }
  split; [exact Hzone|].
  apply (place_mines_safe_zone 5 1 1 [2%nat] [ToggleFlag 1 0; Reveal 3 0] 0 0 w');
    [vm_compute; reflexivity|vm_compute; reflexivity|exact Hzone].
Defined.

(** ** Where the code departs from its documentation *)

(** C9: [reveal] at a flagged cell is not the silent no-op of the
    documentation on a board that [reveal] and [toggle_flag] alone have
    touched.  On the new 2x2 board without mines, [toggle_flag(0, 0)] returns
    and leaves (0,0) flagged and not revealed; [reveal(0, 0)] then changes
    nothing, but it does not return: it raises [AttributeError] at the read
    of [mines_placed], before the guard on the flag is reached. *)
Theorem reveal_flagged_raises gen :
  let w := after (toggle_flag 0 0 (new_game 2 2 0 gen)) in
  toggle_flag 0 0 (new_game 2 2 0 gen) = Ok w /\
  is_inbounds (board w) 0 0 = true /\
  cell_at (board w) 0 0 = Some (mkCell 0 0 (mkCellState false false true 0)) /\
  reveal 0 0 w = Err AttributeError w.
Proof.
  intros w. split; [reflexivity|]. split; [reflexivity|]. split; [reflexivity|].
  apply reveal_unset_attribute; reflexivity.
Qed.

(** C1: the first in-bounds [reveal] on a new board raises.  [__init__]
    assigns [_mines_placed], [reveal] reads [mines_placed]: on the 2x2 board
    without mines, [reveal(0, 0)] ends in an [AttributeError]. *)
Theorem first_reveal_raises gen :
  reveal 0 0 (new_game 2 2 0 gen) = Err AttributeError (new_game 2 2 0 gen).
Proof. apply reveal_unset_attribute; reflexivity. Qed.

(** C8: on a new 3x3 board with one mine, [_mines_placed] is false and the
    attribute [mines_placed] is not there; the first [reveal], at (1,1),
    raises at the read of it, so it places no mine and leaves the attribute
    unset: the world after the call is the world before it. *)
Theorem first_reveal_places_nothing gen :
  let w := new_game 3 3 1 gen in
  _mines_placed (board w) = false /\ mines_placed (board w) = None /\
  reveal 1 1 w = Err AttributeError w /\
  mines_placed (board (after (reveal 1 1 w))) = None /\
  mines (board (after (reveal 1 1 w))) = mines (board w).
Proof.
  intros w.
  assert (reveal 1 1 w = Err AttributeError w) as E
      by (apply reveal_unset_attribute; reflexivity).
  rewrite E. done.
Qed.

(** C2: [revealed_count] is not kept equal to the number of revealed cells.
    On the 3x1 board with one mine, mines placed around (0,0) (the mine can
    only go to (2,0)), [reveal(0, 0)] returns with two cells revealed and
    [revealed_count] still 0. *)
Theorem revealed_count_not_maintained gen :
  let w := after (place_mines 0 0 (new_game 3 1 1 gen)) in
  let w' := after (reveal 0 0 w) in
  place_mines 0 0 (new_game 3 1 1 gen) = Ok w /\
  reveal 0 0 w = Ok w' /\
  count_revealed (board w') = 2 /\ revealed_count (board w') = 0.
Proof. intros w w'. repeat split; vm_compute; reflexivity. Qed.

(** C3: on the same board, [game_over] is false and [reveal(0, 0)] reveals
    the last non-mine cells, and [win] stays false. *)
Theorem last_safe_cell_sets_no_win gen :
  let w := after (place_mines 0 0 (new_game 3 1 1 gen)) in
  let w' := after (reveal 0 0 w) in
  game_over (board w) = false /\ all_safe_revealed (board w) = false /\
  reveal 0 0 w = Ok w' /\
  all_safe_revealed (board w') = true /\ win (board w') = false.
Proof. intros w w'. repeat split; vm_compute; reflexivity. Qed.

(** C6: [flagged_count] hands back [None], not the number of flagged cells:
    on the 1x1 board after [toggle_flag(0, 0)], one cell is flagged and the
    call returns [None].  It changes nothing. *)
Theorem flagged_count_returns_none gen :
  let w := after (toggle_flag 0 0 (new_game 1 1 0 gen)) in
  count_flagged (board w) = 1 /\ flagged_count w = (NoneVal, w).
Proof. intros w. split; vm_compute; reflexivity. Qed.

(** ** Calls that return *)

(** A loop whose iterations all return, returns. *)
Lemma for_each_returns {X S} (body : X -> S -> Result S) (P : S -> Prop) xs :
  (forall x s, x ∈ xs -> P s -> exists s', body x s = Ok s' /\ P s') ->
  forall s, P s -> exists s', for_each body xs s = Ok s' /\ P s'.
Proof.
  induction xs as [|x xs IH]; intros Hbody s HP; simpl; [by exists s|].
  destruct (Hbody x s ltac:(left) HP) as (s1 & -> & HP1). simpl.
  apply IH; [|done]. intros; apply Hbody; [by right|done].
Qed.

Lemma bind_length {A B} (f : A -> list B) (k : nat) (l : list A) :
  (forall x, length (f x) = k) -> length (l ≫= f) = (length l * k)%nat.
Proof.
  intros Hf. induction l as [|x l IH]; [done|].
  rewrite bind_cons, List.length_app, Hf, IH. simpl. lia.
Qed.

(** The constructor allocates a cell for every position. *)
Lemma Board_init_complete cols rows mines : grid_complete (Board_init cols rows mines).
Proof.
  unfold grid_complete. simpl.
  rewrite (bind_length _ (Z.to_nat cols)).
  - unfold range. by rewrite length_seqZ.
  - intros r. rewrite (bind_length _ 1%nat) by done.
    unfold range. rewrite length_seqZ. lia.
Qed.

(** On a complete grid the subscript of an in-bounds position finds a cell. *)
Lemma cell_at_inbounds b c r :
  grid_complete b -> is_inbounds b c r = true -> is_Some (cell_at b c r).
Proof.
  unfold grid_complete. intros Hlen [Hc Hr]%is_inbounds_spec.
  unfold cell_at, getitem, slot, index.
  assert (0 <= r * cols b + c < Z.of_nat (length (cells b))) as Hidx.
  { rewrite Hlen, Nat2Z.inj_mul, !Z2Nat.id by lia. nia. }
  rewrite bool_decide_eq_true_2 by done.
  apply lookup_lt_is_Some_2. lia.
Qed.

Lemma modify_inbounds b c r f :
  grid_complete b -> is_inbounds b c r = true ->
  exists cs, modify (cells b) (index b c r) f = Some cs /\ length cs = length (cells b).
Proof.
  intros Hlen Hin. destruct (cell_at_inbounds b c r Hlen Hin) as [cell Hcell].
  destruct (modify_getitem _ _ f _ Hcell) as [cs Hcs].
  exists cs. split; [done|]. by eapply modify_length.
Qed.

Lemma count_mines_returns b ns acc :
  grid_complete b -> (forall p, p ∈ ns -> is_inbounds b p.1 p.2 = true) ->
  is_Some (count_mines b ns acc).
Proof.
  intros Hlen. revert acc. induction ns as [|[nc nr] ns IH]; intros acc Hns; simpl; [done|].
  destruct (cell_at_inbounds b nc nr Hlen (Hns (nc, nr) ltac:(left))) as [n Hn].
  unfold cell_at in Hn. rewrite Hn. apply IH. intros; apply Hns. by right.
Qed.

Lemma mark_mine_returns p b :
  grid_complete b -> is_inbounds b p.1 p.2 = true ->
  exists b', mark_mine p b = Ok b' /\
             grid_complete b' /\ cols b' = cols b /\ rows b' = rows b.
Proof.
  intros Hlen Hin. unfold mark_mine.
  destruct (modify_inbounds b p.1 p.2 (set_is_mine true) Hlen Hin) as (cs & -> & Hcs).
  eexists. split; [done|]. unfold grid_complete. simpl. by rewrite Hcs.
Qed.

Lemma adjacency_step_returns r c b :
  grid_complete b -> is_inbounds b c r = true ->
  exists b', adjacency_step r c b = Ok b' /\
             grid_complete b' /\ cols b' = cols b /\ rows b' = rows b.
Proof.
  intros Hlen Hin. unfold adjacency_step.
  destruct (cell_at_inbounds b c r Hlen Hin) as [cell Hcell].
  unfold cell_at in Hcell. rewrite Hcell.
  destruct (is_mine (state cell)); [by exists b|].
  destruct (count_mines_returns b (neighbors b c r) 0 Hlen) as [k ->].
  { intros p. apply neighbors_inbounds. }
  destruct (modify_inbounds b c r (set_adjacent k) Hlen Hin) as (cs & -> & Hcs).
  eexists. split; [done|]. unfold grid_complete. simpl. by rewrite Hcs.
Qed.

(** On a complete grid and with a mine count that is not negative,
    [place_mines] returns, whatever the coordinates and the draws. *)
Lemma place_mines_returns safe_col safe_row w :
  grid_complete (board w) -> 0 <= num_mines (board w) ->
  exists w', place_mines safe_col safe_row w = Ok w' /\ grid_complete (board w').
Proof.
  intros Hlen Hnum. unfold place_mines.
  set (pool := filter _ _).
  destruct (sample (rng w) pool (Z.min (num_mines (board w)) (Z.of_nat (length pool))))
    as [[mine_locs gen]|] eqn:Hs.
  2:{ unfold sample in Hs. rewrite bool_decide_eq_true_2 in Hs by lia. done. }
  set (P := fun b' : Board => grid_complete b' /\ cols b' = cols (board w) /\
                              rows b' = rows (board w)).
  destruct (for_each_returns mark_mine P mine_locs) with (s := board w)
    as (b1 & -> & HP1); [|done|].
  { intros p s Hp (Hl & Hc & Hr).
    assert (is_inbounds s p.1 p.2 = true) as Hin.
    { rewrite (is_inbounds_layout (board w) s) by done. apply positions_spec.
      eapply sample_elem in Hp; [|exact Hs]. by apply list_elem_of_filter in Hp as [_ ?]. }
    destruct (mark_mine_returns p s Hl Hin) as (s' & -> & Hl' & Hc' & Hr').
    exists s'. split; [done|]. unfold P. split; [done|]. split; congruence. }
  simpl. unfold adjacency_loops.
  destruct (for_each_returns
              (fun r b' => for_each (adjacency_step r) (range (cols b')) b')
              P (range (rows b1))) with (s := b1) as (b2 & -> & HP2); [|done|].
  { intros r s Hr%range_spec (Hl & Hc & Hrows).
    apply (for_each_returns (adjacency_step r) P); [|done].
    intros c s' Hcs%range_spec (Hl' & Hc' & Hr').
    destruct HP1 as (_ & _ & Hr1).
    assert (is_inbounds s' c r = true) as Hin.
    { apply is_inbounds_spec. split; [lia|]. rewrite Hr', <- Hr1. done. }
    destruct (adjacency_step_returns r c s' Hl' Hin) as (s'' & -> & Hl'' & Hc'' & Hr'').
    exists s''. split; [done|]. unfold P. split; [done|]. split; congruence. }
  eexists. split; [done|]. apply HP2.
Qed.

(** In particular the first placement on a new board returns. *)
Corollary new_game_place_mines_returns cols rows mines gen safe_col safe_row :
  0 <= mines ->
  exists w', place_mines safe_col safe_row (new_game cols rows mines gen) = Ok w'.
Proof.
  intros Hmines.
  destruct (place_mines_returns safe_col safe_row (new_game cols rows mines gen))
    as (w' & Hw' & _); [apply Board_init_complete|done|by exists w'].
Qed.

Lemma grid_complete_fmap (f : Cell -> Cell) b b0 :
  cols b0 = cols b -> rows b0 = rows b -> cells b0 = cells b ->
  grid_complete b -> grid_complete (set_cells (f <$> cells b0) b0).
Proof.
  unfold grid_complete. simpl. intros -> -> ->. by rewrite length_fmap.
Qed.

Lemma hit_mine_playable w : playable w -> playable (hit_mine w).
Proof.
  intros [Hlen Hmp]. split; [|done]. simpl.
  by apply (grid_complete_fmap _ (board w) (set_game_over true (board w))).
Qed.

Lemma check_win_playable w : playable w -> playable (check_win w).
Proof.
  intros [Hlen Hmp]. split; [|simpl; by rewrite check_win_mines_placed].
  simpl. unfold _check_win. destruct (_ && _); [|done].
  by apply (grid_complete_fmap _ (board w) (set_win true (board w))).
Qed.

Section Returns.
Variable rev : Z -> Z -> World -> option Outcome.
Hypothesis rev_returns : forall nc nr w o,
    playable w -> rev nc nr w = Some o -> returned o = true /\ playable (after o).

Lemma reveal_each_returns ns w o :
  playable w -> reveal_each rev ns w = Some o -> returned o = true /\ playable (after o).
Proof.
  revert w. induction ns as [|[nc nr] ns IH]; intros w Hw; simpl.
  - by intros [= <-].
  - destruct (rev nc nr w) as [[w'|e w']|] eqn:E; [| |done].
    + destruct (rev_returns _ _ _ _ Hw E) as [_ Hw']. by apply IH.
    + by destruct (rev_returns _ _ _ _ Hw E) as [? _].
Qed.

Lemma reveal_cell_returns col row w o :
  playable w -> is_inbounds (board w) col row = true ->
  reveal_cell rev col row w = Some o -> returned o = true /\ playable (after o).
Proof.
  intros Hw Hin. pose proof Hw as [Hlen Hmp]. unfold reveal_cell.
  destruct (cell_at_inbounds _ _ _ Hlen Hin) as [cell Hcell].
  unfold cell_at in Hcell. rewrite Hcell.
  destruct (_ || _); [by intros [= <-]|].
  pose proof (modify_getitem _ _ (set_is_revealed true) _ Hcell) as [cs Hcs].
  rewrite Hcs.
  assert (playable (set_board (set_cells cs (board w)) w)) as Hw2.
  { split; [|done]. unfold grid_complete. simpl.
    by rewrite (modify_length _ _ _ _ Hcs). }
  destruct (is_mine _); [intros [= <-]; split; [done|by apply hit_mine_playable]|].
  destruct (bool_decide _).
  - destruct (reveal_each _ _ _) as [[w3|e w3]|] eqn:F; intros [= <-].
    + destruct (reveal_each_returns _ _ _ Hw2 F) as [_ Hw3].
      split; [done|by apply check_win_playable].
    + by destruct (reveal_each_returns _ _ _ Hw2 F) as [? _].
  - intros [= <-]. split; [done|by apply check_win_playable].
Qed.

Lemma reveal_body_returns col row w o :
  playable w -> reveal_body rev col row w = Some o ->
  returned o = true /\ playable (after o).
Proof.
  intros Hw. pose proof Hw as [_ Hmp]. unfold reveal_body.
  destruct (is_inbounds _ _ _) eqn:Hin; simpl; [|by intros [= <-]].
  rewrite Hmp. simpl. by apply reveal_cell_returns.
Qed.
End Returns.

Lemma reveal_n_returns fuel col row w o :
  playable w -> reveal_n fuel col row w = Some o ->
  returned o = true /\ playable (after o).
Proof.
  revert col row w o. induction fuel as [|fuel IH]; intros col row w o Hw; simpl; [done|].
  by apply reveal_body_returns.
Qed.

(** At whatever depth a call completes, it has done what [reveal] does. *)
Lemma reveal_n_complete limit col row w o :
  reveal_n limit col row w = Some o -> o = reveal col row w.
Proof.
  intros Ho. apply (reveal_n_mono _ (S (hidden (board w)))) in Ho.
  pose proof (reveal_n_mono _ limit _ _ _ _ (reveal_n_reveal col row w)) as Hr.
  rewrite Nat.add_comm in Hr. congruence.
Qed.

(** Once mines have been placed on a complete grid, no statement of [reveal]
    raises: allowed more nested calls than there are hidden cells, the call
    returns. *)
Lemma reveal_returns limit col row w :
  playable w -> (hidden (board w) < limit)%nat ->
  exists w', reveal_n limit col row w = Some (Ok w') /\ playable w'.
Proof.
  intros Hw Hl. destruct (reveal_n_enough limit col row w Hl) as [o Ho].
  destruct (reveal_n_returns _ _ _ _ _ Hw Ho) as [Hret Hplay].
  destruct o as [w'|e w']; [|done]. by exists w'.
Qed.

(** * Further properties of the engine *)

(** ** Neighbours and indices *)

(** Membership in the list of neighbours. *)
Lemma neighbors_spec b c r p :
  p ∈ neighbors b c r <->
  is_inbounds b p.1 p.2 = true /\ Z.max (Z.abs (p.1 - c)) (Z.abs (p.2 - r)) = 1.
Proof.
  unfold neighbors. rewrite list_elem_of_In, filter_In, <- list_elem_of_In.
  rewrite list_elem_of_fmap. split.
  - intros [(d & -> & Hd) Hin]. split; [done|]. unfold deltas in Hd.
    repeat (apply elem_of_cons in Hd as [->|Hd]); simpl; try lia.
    by apply elem_of_nil in Hd.
  - intros [Hin Hdist]. split; [|done]. exists (p.1 - c, p.2 - r). split.
    + destruct p as [pc pr]. simpl. f_equal; lia.
    + assert (p.1 - c = -1 \/ p.1 - c = 0 \/ p.1 - c = 1) as Hc by lia.
      assert (p.2 - r = -1 \/ p.2 - r = 0 \/ p.2 - r = 1) as Hr by lia.
      unfold deltas.
      destruct Hc as [Hc|[Hc|Hc]], Hr as [Hr|[Hr|Hr]]; rewrite Hc, Hr in *;
        try lia; repeat first [by left | right].
Qed.

(** X1: the neighbours of (col, row) are the in-bounds positions at Chebyshev
    distance 1 from it, exactly; a position is never its own neighbour. *)
Theorem neighbors_chebyshev b c r p :
  p ∈ neighbors b c r <->
  is_inbounds b p.1 p.2 = true /\ Z.max (Z.abs (p.1 - c)) (Z.abs (p.2 - r)) = 1.
Proof. apply neighbors_spec. Qed.

(** X2: on the grid, [index] numbers the positions row by row: the index of
    an in-bounds position lies in [0, cols*rows), and the position is read
    back from it as its remainder and quotient by [cols]; so two in-bounds
    positions with the same index are the same. *)
Theorem index_round_trip b c r :
  is_inbounds b c r = true ->
  0 <= index b c r < cols b * rows b /\
  index b c r mod cols b = c /\ index b c r / cols b = r.
Proof.
  intros [Hc Hr]%is_inbounds_spec. unfold index. split; [nia|]. split.
  - rewrite Z.add_comm, Z_mod_plus_full. apply Z.mod_small. lia.
  - rewrite Z.div_add_l by lia. rewrite Z.div_small by lia. lia.
Qed.

Lemma index_round_trip_witness :
  let b := Board_init 4 3 2 in
  is_inbounds b 3 2 = true /\
  0 <= index b 3 2 < cols b * rows b /\
  index b 3 2 mod cols b = 3 /\ index b 3 2 / cols b = 2.
Proof.
  intros b. split; [vm_compute; reflexivity|].
  apply (index_round_trip b 3 2). vm_compute. reflexivity.
Defined.

(** ** Attributes that calls leave alone *)

(** An attribute of the cells that [place_mines] has no assignment to is
    after the call, in every cell, what it was before. *)
Lemma place_mines_keeps_attr {B} (g : Cell -> B) c r w :
  (forall v cell, g (set_is_mine v cell) = g cell) ->
  (forall v cell, g (set_adjacent v cell) = g cell) ->
  g <$> cells (board (after (place_mines c r w))) = g <$> cells (board w).
Proof.
  intros Hmine Hadj.
  set (R := fun b b' : Board => g <$> cells b' = g <$> cells b).
  assert (forall b1 b2 b3, R b1 b2 -> R b2 b3 -> R b1 b3) as Htrans
      by (unfold R; congruence).
  unfold place_mines. destruct (sample _ _ _) as [[mine_locs gen]|]; [|done].
  assert (R (board w) (after (bind (for_each mark_mine mine_locs (board w))
                                   adjacency_loops))) as HR.
  { apply bind_rel; [done| |].
    - apply for_each_rel; [done|done|]. intros p s _. unfold R, mark_mine.
      destruct (modify _ _ _) as [cs|] eqn:E; simpl; [|done].
      by eapply modify_fmap_same; [|exact E].
    - intros b1. unfold adjacency_loops. apply for_each_rel; [done|done|].
      intros r' s _. apply for_each_rel; [done|done|].
      intros c' s' _. unfold R, adjacency_step.
      destruct (getitem _ _) as [cell|]; simpl; [|done].
      destruct (is_mine (state cell)); simpl; [done|].
      destruct (count_mines _ _ _) as [k|]; simpl; [|done].
      destruct (modify _ _ _) as [cs|] eqn:E; simpl; [|done].
      by eapply modify_fmap_same; [|exact E]. }
  destruct (bind _ _); exact HR.
Qed.

Lemma fmap_attr_same {B} (g : Cell -> B) (f : Cell -> Cell) (l : list Cell) :
  (forall cell, g (f cell) = g cell) -> g <$> (f <$> l) = g <$> l.
Proof.
  intros Hf. rewrite <- list_fmap_compose. apply list_fmap_ext. intros ? cell _. apply Hf.
Qed.

Lemma reveal_all_mines_attr {B} (g : Cell -> B) b :
  (forall v cell, g (set_is_revealed v cell) = g cell) ->
  g <$> cells (_reveal_all_mines b) = g <$> cells b.
Proof.
  intros Hg. simpl. apply fmap_attr_same. intros cell.
  destruct (is_mine (state cell)); [apply Hg|done].
Qed.

Lemma check_win_attr {B} (g : Cell -> B) b :
  (forall v cell, g (set_is_revealed v cell) = g cell) ->
  g <$> cells (_check_win b) = g <$> cells b.
Proof.
  intros Hg. unfold _check_win. destruct (_ && _); [|done]. simpl.
  apply fmap_attr_same. intros cell. destruct (_ && _); [apply Hg|done].
Qed.

(** An attribute of the cells that is not [is_revealed] is left alone by
    [reveal], provided the call does not get to place mines. *)
Lemma reveal_keeps_attr {B} (g : Cell -> B) col row w :
  (forall v cell, g (set_is_revealed v cell) = g cell) ->
  mines_placed (board w) <> Some false ->
  g <$> cells (board (after (reveal col row w))) = g <$> cells (board w).
Proof.
  intros Hg Hmp.
  apply (reveal_n_rel (fun w w' =>
           mines_placed (board w) <> Some false ->
           mines_placed (board w') <> Some false /\
           g <$> cells (board w') = g <$> cells (board w)))
    with (fuel := S (hidden (board w))) (col := col) (row := row);
    [| | | | | |apply reveal_n_reveal|done].
  - done.
  - intros w1 w2 w3 H12 H23 H1. destruct (H12 H1) as [H2 E2].
    destruct (H23 H2) as [H3 E3]. split; [done|congruence].
  - intros c r w0 Hfalse Hnot. done.
  - intros w0 idx cell cs _ _ M Hnot. split; [done|]. simpl.
    by eapply modify_fmap_same; [|exact M].
  - intros w0 Hnot. split; [done|].
    apply (reveal_all_mines_attr g (set_game_over true (board w0)) Hg).
  - intros w0 Hnot. simpl. split; [by rewrite check_win_mines_placed|].
    by apply check_win_attr.
Qed.

Lemma toggle_flag_keeps_attr {B} (g : Cell -> B) col row w :
  (forall v cell, g (set_is_flagged v cell) = g cell) ->
  g <$> cells (board (after (toggle_flag col row w))) = g <$> cells (board w).
Proof.
  intros Hg. unfold toggle_flag. destruct (negb _); [done|].
  destruct (getitem _ _) as [cell|]; [|done].
  destruct (is_revealed _); [done|].
  destruct (modify _ _ _) as [cs|] eqn:M; [|done]. simpl.
  by eapply modify_fmap_same; [|exact M].
Qed.

(** ** The grid over a lifetime *)

Lemma reveal_layout col row w :
  let b := board w in let b' := board (after (reveal col row w)) in
  cols b' = cols b /\ rows b' = rows b /\ length (cells b') = length (cells b).
Proof.
  apply (reveal_n_rel (fun w w' =>
           cols (board w') = cols (board w) /\ rows (board w') = rows (board w) /\
           length (cells (board w')) = length (cells (board w))))
    with (fuel := S (hidden (board w))) (col := col) (row := row);
    [| | | | | |apply reveal_n_reveal].
  - done.
  - intros w1 w2 w3 (? & ? & ?) (? & ? & ?). repeat split; congruence.
  - intros c r w0 _. destruct (place_mines_frame c r w0) as [H _].
    unfold outside_placement in H. injection H as Hc Hr _ _ _ _ _ Hrev _.
    split; [done|]. split; [done|].
    apply (f_equal length) in Hrev. unfold revealed_flags in Hrev.
    by rewrite !length_fmap in Hrev.
  - intros w0 idx cell cs _ _ M. simpl. split; [done|]. split; [done|].
    by eapply modify_length.
  - intros w0. simpl. split; [done|]. split; [done|]. by rewrite length_fmap.
  - intros w0. simpl. unfold _check_win. destruct (_ && _); [|done]. simpl.
    split; [done|]. split; [done|]. by rewrite length_fmap.
Qed.

(** Every board of a lifetime has a cell for every position of its grid. *)
Lemma reachable_grid_complete w : reachable w -> grid_complete (board w).
Proof.
  assert (forall b b', cols b' = cols b -> rows b' = rows b ->
                       length (cells b') = length (cells b) ->
                       grid_complete b -> grid_complete b') as Hstep.
  { unfold grid_complete. intros b b' -> -> ->. done. }
  induction 1 as [| m w Hw IH | c r w Hw IH | w Hw IH | w Hw IH | w Hw IH]; simpl.
  - apply Board_init_complete.
  - destruct m as [c r|c r]; simpl.
    + destruct (reveal_layout c r w) as (? & ? & ?). by eapply Hstep.
    + destruct (toggle_flag_frame c r w) as (_ & _ & _ & _ & _ & ? & ? & _).
      eapply Hstep; [done|done| |done].
      pose proof (toggle_flag_keeps_attr (fun _ => tt) c r w ltac:(done)) as Hl.
      apply (f_equal length) in Hl. by rewrite !length_fmap in Hl.
  - destruct (place_mines_frame c r w) as [H _].
    unfold outside_placement in H. injection H as Hc Hr _ _ _ _ _ Hrev _.
    eapply Hstep; [done|done| |done].
    apply (f_equal length) in Hrev. unfold revealed_flags in Hrev.
    by rewrite !length_fmap in Hrev.
  - done.
  - eapply Hstep; [| | |done]; simpl; [done|done|by rewrite length_fmap].
  - eapply Hstep; [| | |done]; simpl; unfold _check_win; destruct (_ && _); simpl;
      try done; by rewrite length_fmap.
Qed.

Lemma lookup_bind_const {A B} (f : A -> list B) (k : nat) (l : list A) (i j : nat) x :
  (forall y, length (f y) = k) -> l !! i = Some x -> (j < k)%nat ->
  (l ≫= f) !! (i * k + j)%nat = f x !! j.
Proof.
  intros Hf. revert i. induction l as [|y l IH]; intros i Hi Hj; [done|].
  rewrite bind_cons. destruct i as [|i]; simpl in Hi.
  - injection Hi as ->. simpl. apply lookup_app_l. by rewrite Hf.
  - rewrite lookup_app_r by (rewrite Hf; lia). rewrite Hf.
    replace (S i * k + j - k)%nat with (i * k + j)%nat by lia. by apply IH.
Qed.

Lemma fmap_bind_list {A B C} (g : B -> C) (f : A -> list B) (l : list A) :
  g <$> (l ≫= f) = l ≫= (fun x => g <$> f x).
Proof.
  induction l as [|x l IH]; [done|]. by rewrite !bind_cons, fmap_app, IH.
Qed.

(** The position list of the comprehensions holds (c, r) at [index] (c, r). *)
Lemma positions_lookup b c r :
  is_inbounds b c r = true ->
  getitem (r' ← range (rows b); c' ← range (cols b); [(c', r')]) (index b c r)
  = Some (c, r).
Proof.
  intros Hin. pose proof Hin as [Hc Hr]%is_inbounds_spec.
  set (f := fun r' : Z => c' ← range (cols b); [(c', r')]).
  assert (forall y, length (f y) = Z.to_nat (cols b)) as Hf.
  { intros y. unfold f. rewrite (bind_length _ 1%nat) by done.
    unfold range. rewrite length_seqZ. lia. }
  assert (length (range (rows b) ≫= f) = (Z.to_nat (rows b) * Z.to_nat (cols b))%nat)
    as Hlen.
  { rewrite (bind_length _ _ _ Hf). unfold range. by rewrite length_seqZ. }
  unfold getitem, slot. rewrite Hlen, bool_decide_eq_true_2.
  2:{ unfold index. rewrite Nat2Z.inj_mul, !Z2Nat.id by lia. nia. }
  replace (Z.to_nat (index b c r))
    with (Z.to_nat r * Z.to_nat (cols b) + Z.to_nat c)%nat by (unfold index; nia).
  rewrite (lookup_bind_const f (Z.to_nat (cols b)) _ _ _ r Hf); [| |lia].
  2:{ unfold range. apply lookup_seqZ. lia. }
  unfold f. replace (Z.to_nat c) with (Z.to_nat c * 1 + 0)%nat by lia.
  rewrite (lookup_bind_const (fun c' => [(c', r)]) 1 _ _ _ c); [done|done| |lia].
  unfold range. apply lookup_seqZ. lia.
Qed.

(** The coordinates stored in the cells are never assigned after the
    constructor: on every board of a lifetime, [cells] lists the positions of
    the grid row by row. *)
Lemma reachable_coords w :
  reachable w ->
  coords (board w) = (r ← range (rows (board w)); c ← range (cols (board w)); [(c, r)]).
Proof.
  assert (forall b b', cols b' = cols b -> rows b' = rows b -> coords b' = coords b ->
            coords b = (r ← range (rows b); c ← range (cols b); [(c, r)]) ->
            coords b' = (r ← range (rows b'); c ← range (cols b'); [(c, r)])) as Hstep.
  { intros b b' -> -> ->. done. }
  induction 1 as [cols rows mines gen| m w Hw IH | c r w Hw IH | w Hw IH
                  | w Hw IH | w Hw IH]; simpl.
  - unfold coords. simpl. rewrite fmap_bind_list. apply list_bind_ext; [|done].
    intros r. by rewrite fmap_bind_list.
  - pose proof (reachable_mines_placed w Hw) as Hmp.
    revert IH. destruct m as [c r|c r]; simpl.
    + destruct (reveal_layout c r w) as (? & ? & _). apply Hstep; [done|done|].
      by apply (reveal_keeps_attr (fun cell => (col cell, row cell))).
    + destruct (toggle_flag_frame c r w) as (_ & _ & _ & _ & _ & ? & ? & _).
      apply Hstep; [done|done|].
      by apply (toggle_flag_keeps_attr (fun cell => (col cell, row cell))).
  - revert IH. destruct (place_mines_frame c r w) as [H _].
    unfold outside_placement in H. injection H as Hc Hr _ _ _ _ _ _ _.
    apply Hstep; [done|done|].
    by apply (place_mines_keeps_attr (fun cell => (col cell, row cell))).
  - done.
  - revert IH. apply (Hstep (board w) (_reveal_all_mines (board w))); [done|done|].
    by apply (reveal_all_mines_attr (fun cell => (col cell, row cell))).
  - revert IH. apply (Hstep (board w) (_check_win (board w))).
    + unfold _check_win. by destruct (_ && _).
    + unfold _check_win. by destruct (_ && _).
    + by apply (check_win_attr (fun cell => (col cell, row cell))).
Qed.

(** X3: on every board of a lifetime, the subscript [cells[index(c, r)]] of
    an in-bounds position finds a cell, and it is the cell whose own
    coordinates are (c, r). *)
Theorem cell_at_coordinates w c r :
  reachable w -> is_inbounds (board w) c r = true ->
  exists cell, cell_at (board w) c r = Some cell /\ col cell = c /\ row cell = r.
Proof.
  intros Hreach Hin.
  destruct (cell_at_inbounds _ c r (reachable_grid_complete w Hreach) Hin)
    as [cell Hcell].
  exists cell. split; [done|].
  pose proof (positions_lookup (board w) c r Hin) as Hpos.
  rewrite <- (reachable_coords w Hreach) in Hpos. unfold coords in Hpos.
  rewrite getitem_fmap in Hpos. unfold cell_at in Hcell. rewrite Hcell in Hpos.
  simpl in Hpos. by injection Hpos as -> ->.
Qed.

Lemma cell_at_coordinates_witness :
  let w := after (move (ToggleFlag 2 1)
                       (after (place_mines 0 0 (new_game 4 3 2 [5; 1]%nat)))) in
  reachable w /\ is_inbounds (board w) 3 2 = true /\
  exists cell, cell_at (board w) 3 2 = Some cell /\ col cell = 3 /\ row cell = 2.
Proof.
  intros w.
  assert (reachable w) as Hreach.
  { apply reach_move, reach_place_mines, reach_init. }
  split; [exact Hreach|]. split; [vm_compute; reflexivity|].
  apply (cell_at_coordinates w 3 2 Hreach). vm_compute. reflexivity.
Defined.

(** ** [place_mines]: errors, totality, frame *)

(** X4: on a board built with a negative mine count, [place_mines] raises
    [ValueError] (from [random.sample]) whatever the coordinates, before it
    has changed anything. *)
Theorem place_mines_negative_mines safe_col safe_row w :
  num_mines (board w) < 0 -> place_mines safe_col safe_row w = Err ValueError w.
Proof.
  intros Hneg. unfold place_mines, sample.
  rewrite bool_decide_eq_false_2; [done|lia].
Qed.

Lemma place_mines_negative_mines_witness :
  let w := new_game 3 3 (-1) [] in
  num_mines (board w) < 0 /\ place_mines 1 1 w = Err ValueError w.
Proof.
  intros w. assert (num_mines (board w) < 0) as Hneg by (vm_compute; reflexivity).
  split; [exact Hneg|]. exact (place_mines_negative_mines 1 1 w Hneg).
Defined.

(** X5: on every board of a lifetime built with a mine count that is not
    negative, [place_mines] returns, for all integer coordinates (in bounds or
    not) and all draws. *)
Theorem place_mines_always_returns safe_col safe_row w :
  reachable w -> 0 <= num_mines (board w) ->
  exists w', place_mines safe_col safe_row w = Ok w'.
Proof.
  intros Hreach Hnum.
  destruct (place_mines_returns safe_col safe_row w
              (reachable_grid_complete w Hreach) Hnum) as (w' & Hw' & _).
  by exists w'.
Qed.

Lemma place_mines_always_returns_witness :
  let w := after (place_mines 0 0 (new_game 4 3 2 [5; 1]%nat)) in
  reachable w /\ 0 <= num_mines (board w) /\
  exists w', place_mines (-7) 100 w = Ok w'.
Proof.
  intros w. assert (reachable w) as Hreach by apply reach_place_mines, reach_init.
  assert (0 <= num_mines (board w)) as Hnum by (vm_compute; discriminate).
  split; [exact Hreach|]. split; [exact Hnum|].
  exact (place_mines_always_returns (-7) 100 w Hreach Hnum).
Defined.

(** X6: [place_mines], whether it returns or raises, changes no
    [is_revealed], no [is_flagged] and no coordinates of any cell, and none of
    [cols], [rows], [num_mines], [revealed_count], [game_over] and [win]. *)
Theorem place_mines_untouched safe_col safe_row w :
  let b := board w in
  let b' := board (after (place_mines safe_col safe_row w)) in
  revealed_flags b' = revealed_flags b /\ flagged_flags b' = flagged_flags b /\
  coords b' = coords b /\
  cols b' = cols b /\ rows b' = rows b /\ num_mines b' = num_mines b /\
  revealed_count b' = revealed_count b /\
  game_over b' = game_over b /\ win b' = win b.
Proof.
  intros b b'. destruct (place_mines_frame safe_col safe_row w) as [H _].
  unfold outside_placement in H. injection H as ? ? ? _ ? ? ? ? ?.
  repeat (split; [done|]). split; [|done].
  by apply (place_mines_keeps_attr (fun cell => (col cell, row cell))).
Qed.

(** ** [reveal]: when it raises, and what it does on a mine *)

(** X7: on every board of a lifetime, the statements of [reveal] raise in one
    case only: the coordinates are in bounds and nothing has set
    [mines_placed] yet; the call then raises [AttributeError] at its first
    level and has changed nothing.  In every other case, whatever the integers
    given, a call that completes, at whatever depth of nested calls, has
    returned, and it does complete when the interpreter allows more nested
    calls of [reveal] than the board has hidden cells: only the interpreter's
    limit on the depth can still cut it short. *)
Theorem reveal_raises_only_unset col row w :
  reachable w ->
  (is_inbounds (board w) col row = true /\ mines_placed (board w) = None /\
   forall limit, reveal_n (S limit) col row w = Some (Err AttributeError w)) \/
  ((is_inbounds (board w) col row = false \/ mines_placed (board w) = Some true) /\
   (forall limit outcome, reveal_n limit col row w = Some outcome ->
                          exists w', outcome = Ok w') /\
   (forall limit, (hidden (board w) < limit)%nat ->
                  exists w', reveal_n limit col row w = Some (Ok w'))).
Proof.
  intros Hreach. destruct (is_inbounds (board w) col row) eqn:Hin.
  2:{ right. split; [by left|]. split.
      - intros [|limit] outcome; simpl; [done|]. unfold reveal_body. rewrite Hin. simpl.
        intros [= <-]. by exists w.
      - intros [|limit] Hl; [lia|]. exists w. simpl. unfold reveal_body. by rewrite Hin. }
  pose proof (reachable_mines_placed w Hreach) as Hmp.
  destruct (mines_placed (board w)) as [[|]|] eqn:E; [|done|].
  - right. split; [by right|].
    assert (playable w) as Hplay by (split; [by apply reachable_grid_complete|done]).
    split.
    + intros limit outcome Ho.
      destruct (reveal_n_returns _ _ _ _ _ Hplay Ho) as [Hret _].
      destruct outcome as [w'|e w']; [by exists w'|done].
    + intros limit Hl.
      destruct (reveal_returns limit col row w Hplay Hl) as (w' & Hw' & _). by exists w'.
  - left. split; [done|]. split; [done|].
    intros limit. simpl. unfold reveal_body. by rewrite Hin, E.
Qed.

Lemma reveal_raises_only_unset_witness :
  let w := after (place_mines 0 0 (new_game 4 3 2 [5; 1]%nat)) in
  reachable w /\ mines_placed (board w) = Some true /\
  exists w', reveal_n 13 3 2 w = Some (Ok w').
Proof.
  intros w. assert (reachable w) as Hreach by apply reach_place_mines, reach_init.
  assert (mines_placed (board w) = Some true) as Hmp by (vm_compute; reflexivity).
  split; [exact Hreach|]. split; [exact Hmp|].
  destruct (reveal_raises_only_unset 3 2 w Hreach) as [(_ & Hnone & _)|(_ & _ & Hok)].
  - rewrite Hmp in Hnone. discriminate Hnone.
  - apply Hok. vm_compute. lia.
Defined.

(** X8: [reveal] at a mine that is neither revealed nor flagged, once mines
    have been placed, returns with [game_over] set and every mine of the
    board revealed, and has changed nothing else: no other cell, no flag,
    not [win], and there is no win check. *)
Theorem reveal_mine col row w cell :
  is_inbounds (board w) col row = true ->
  mines_placed (board w) = Some true ->
  cell_at (board w) col row = Some cell ->
  is_mine (state cell) = true ->
  is_revealed (state cell) = false -> is_flagged (state cell) = false ->
  reveal col row w =
  Ok (set_board
        (set_cells ((fun cell => if is_mine (state cell)
                                 then set_is_revealed true cell else cell)
                      <$> cells (board w))
                   (set_game_over true (board w)))
        w).
Proof.
  intros Hin Hmp Hcell Hmine Hrev Hflag.
  unfold reveal. simpl. unfold reveal_body. rewrite Hin, Hmp. simpl.
  unfold reveal_cell. unfold cell_at in Hcell. rewrite Hcell, Hrev, Hflag. simpl.
  pose proof Hcell as (n & Hs & Hl)%getitem_Some.
  assert (modify (cells (board w)) (index (board w) col row) (set_is_revealed true)
          = Some (<[n := set_is_revealed true cell]> (cells (board w)))) as ->.
  { apply modify_Some. eauto. }
  rewrite Hmine. do 2 f_equal.
  unfold hit_mine, _reveal_all_mines, set_board, set_game_over, set_cells.
  cbn [board rng cells cols rows num_mines _mines_placed mines_placed
       revealed_count game_over win].
  do 2 f_equal.
  rewrite list_fmap_insert. cbn [set_is_revealed state is_mine]. rewrite Hmine.
  apply list_insert_id. rewrite list_lookup_fmap, Hl. simpl. by rewrite Hmine.
Qed.

Lemma reveal_mine_witness :
  let w := after (place_mines 0 0 (new_game 3 1 1 [])) in
  let cell := mkCell 2 0 (mkCellState true false false 0) in
  is_inbounds (board w) 2 0 = true /\ mines_placed (board w) = Some true /\
  cell_at (board w) 2 0 = Some cell /\
  game_over (board (after (reveal 2 0 w))) = true /\
  revealed_flags (board (after (reveal 2 0 w))) = [false; false; true].
Proof.
  intros w cell.
  assert (is_inbounds (board w) 2 0 = true) as Hin by (vm_compute; reflexivity).
  assert (mines_placed (board w) = Some true) as Hmp by (vm_compute; reflexivity).
  assert (cell_at (board w) 2 0 = Some cell) as Hcell by (vm_compute; reflexivity).
  split; [exact Hin|]. split; [exact Hmp|]. split; [exact Hcell|].
  rewrite (reveal_mine 2 0 w cell Hin Hmp Hcell eq_refl eq_refl eq_refl).
  split; vm_compute; reflexivity.
Defined.

Lemma reveal_keeps_attr_always {B} (g : Cell -> B) col row w :
  (forall v cell, g (set_is_mine v cell) = g cell) ->
  (forall v cell, g (set_adjacent v cell) = g cell) ->
  (forall v cell, g (set_is_revealed v cell) = g cell) ->
  g <$> cells (board (after (reveal col row w))) = g <$> cells (board w).
Proof.
  intros Hm Ha Hg.
  apply (reveal_n_rel (fun w w' => g <$> cells (board w') = g <$> cells (board w)))
    with (fuel := S (hidden (board w))) (col := col) (row := row);
    [| | | | | |apply reveal_n_reveal].
  - done.
  - intros w1 w2 w3 H12 H23. congruence.
  - intros c r w0 _. by apply place_mines_keeps_attr.
  - intros w0 idx cell cs _ _ M. simpl. by eapply modify_fmap_same; [|exact M].
  - intros w0. apply (reveal_all_mines_attr g (set_game_over true (board w0)) Hg).
  - intros w0. by apply check_win_attr.
Qed.

(** X9: [reveal] never changes a flag: whatever the board and the integers,
    and whether the call returns or raises, the [is_flagged] of every cell is
    after the call what it was before; nor does it change [cols], [rows] or
    the number of cells. *)
Theorem reveal_keeps_flags col row w :
  let b := board w in let b' := board (after (reveal col row w)) in
  flagged_flags b' = flagged_flags b /\
  cols b' = cols b /\ rows b' = rows b /\ length (cells b') = length (cells b).
Proof.
  intros b b'. split; [|apply reveal_layout].
  by apply (reveal_keeps_attr_always (fun cell => is_flagged (state cell))).
Qed.

(** ** [toggle_flag] *)

Lemma toggle_flag_unrevealed col row w cell n :
  is_inbounds (board w) col row = true ->
  slot (cells (board w)) (index (board w) col row) = Some n ->
  cells (board w) !! n = Some cell ->
  is_revealed (state cell) = false ->
  toggle_flag col row w =
  Ok (set_board
        (set_cells (<[n := set_is_flagged (negb (is_flagged (state cell))) cell]>
                      (cells (board w)))
                   (board w))
        w).
Proof.
  intros Hin Hs Hl Hrev. unfold toggle_flag, getitem, modify.
  by rewrite Hin, Hs, Hl, Hrev.
Qed.

(** X10: two calls of [toggle_flag] on an in-bounds cell that is not revealed
    both return and leave the world exactly as it was. *)
Theorem toggle_flag_twice col row w cell :
  is_inbounds (board w) col row = true ->
  cell_at (board w) col row = Some cell ->
  is_revealed (state cell) = false ->
  play [ToggleFlag col row; ToggleFlag col row] w = Ok w.
Proof.
  intros Hin (n & Hs & Hl)%getitem_Some Hrev.
  pose proof (slot_lt _ _ _ Hs) as Hn.
  unfold play. cbn [for_each move].
  rewrite (toggle_flag_unrevealed col row w cell n Hin Hs Hl Hrev). cbn [bind].
  set (cell' := set_is_flagged (negb (is_flagged (state cell))) cell).
  set (w1 := set_board _ w).
  rewrite (toggle_flag_unrevealed col row w1 cell' n).
  - cbn [bind for_each]. f_equal. unfold w1, set_board, set_cells.
    cbn [board rng cells cols rows num_mines _mines_placed mines_placed
         revealed_count game_over win].
    rewrite list_insert_insert_eq.
    replace (set_is_flagged (negb (is_flagged (state cell'))) cell') with cell.
    2:{ unfold cell'. destruct cell as [? ? []]. simpl. by rewrite negb_involutive. }
    rewrite (list_insert_id _ _ _ Hl). by destruct w as [[] ?].
  - exact Hin.
  - unfold w1. cbn [board set_board set_cells cells index cols].
    rewrite <- Hs. apply slot_length. apply length_insert.
  - unfold w1. cbn [board set_board set_cells cells].
    by apply list_lookup_insert_eq.
  - exact Hrev.
Qed.

Lemma toggle_flag_twice_witness :
  let w := after (place_mines 0 0 (new_game 3 1 1 [])) in
  let cell := mkCell 1 0 (mkCellState false false false 1) in
  is_inbounds (board w) 1 0 = true /\ cell_at (board w) 1 0 = Some cell /\
  is_revealed (state cell) = false /\
  play [ToggleFlag 1 0; ToggleFlag 1 0] w = Ok w.
Proof.
  intros w cell.
  assert (is_inbounds (board w) 1 0 = true) as Hin by (vm_compute; reflexivity).
  assert (cell_at (board w) 1 0 = Some cell) as Hcell by (vm_compute; reflexivity).
  split; [exact Hin|]. split; [exact Hcell|]. split; [reflexivity|].
  exact (toggle_flag_twice 1 0 w cell Hin Hcell eq_refl).
Defined.

(** X11: [toggle_flag] on an in-bounds cell returns; on a revealed cell it
    changes nothing, and on a cell that is not revealed it negates the
    [is_flagged] of that cell and changes nothing else: no other attribute of
    the cell, no other cell of the grid, no attribute of the board. *)
Theorem toggle_flag_effect col row w cell :
  is_inbounds (board w) col row = true ->
  cell_at (board w) col row = Some cell ->
  exists w', toggle_flag col row w = Ok w' /\
    (is_revealed (state cell) = true -> w' = w) /\
    (is_revealed (state cell) = false ->
     cell_at (board w') col row
     = Some (set_is_flagged (negb (is_flagged (state cell))) cell) /\
     (forall c r, is_inbounds (board w) c r = true -> (c, r) <> (col, row) ->
                  cell_at (board w') c r = cell_at (board w) c r) /\
     set_cells (cells (board w)) (board w') = board w /\ rng w' = rng w).
Proof.
  intros Hin Hcell. unfold toggle_flag. rewrite Hin. simpl.
  unfold cell_at in Hcell. rewrite Hcell.
  destruct (is_revealed (state cell)) eqn:Hrev; [exists w; by split|].
  destruct (modify_getitem _ _ (set_is_flagged (negb (is_flagged (state cell)))) _ Hcell)
    as [cs HM].
  rewrite HM. eexists. split; [done|]. split; [done|]. intros _. split; [|split].
  - unfold cell_at, index. simpl. by eapply getitem_modify_same.
  - intros c r Hcr Hne. unfold cell_at, index. simpl.
    eapply getitem_modify_other; [| | |exact HM].
    + by apply index_nonneg.
    + by apply index_nonneg.
    + intros Heq. apply Hne.
      by destruct (index_inj _ _ _ _ _ Hin Hcr Heq) as [-> ->].
  - simpl. by destruct (board w).
Qed.

Lemma toggle_flag_effect_witness :
  let w := after (place_mines 0 0 (new_game 3 1 1 [])) in
  let cell := mkCell 1 0 (mkCellState false false false 1) in
  is_inbounds (board w) 1 0 = true /\ cell_at (board w) 1 0 = Some cell /\
  exists w', toggle_flag 1 0 w = Ok w' /\
    (is_revealed (state cell) = false ->
     cell_at (board w') 1 0 = Some (set_is_flagged true cell)).
Proof.
  intros w cell.
  assert (is_inbounds (board w) 1 0 = true) as Hin by (vm_compute; reflexivity).
  assert (cell_at (board w) 1 0 = Some cell) as Hcell by (vm_compute; reflexivity).
  split; [exact Hin|]. split; [exact Hcell|].
  destruct (toggle_flag_effect 1 0 w cell Hin Hcell) as (w' & Hw' & _ & Hflip).
  exists w'. split; [exact Hw'|]. intros Hrev. exact (proj1 (Hflip Hrev)).
Defined.

(** ** Revealed cells stay revealed *)

Lemma revealed_flags_lookup b i :
  revealed_flags b !! i = Some true <->
  exists cell, cells b !! i = Some cell /\ is_revealed (state cell) = true.
Proof.
  unfold revealed_flags. rewrite list_lookup_fmap. split.
  - destruct (cells b !! i) as [cell|]; [|done]. intros [= H]. by exists cell.
  - intros (cell & -> & H). simpl. by rewrite H.
Qed.

Lemma revealed_kept_refl b : revealed_kept b b.
Proof. by intros i. Qed.

Lemma revealed_kept_trans b1 b2 b3 :
  revealed_kept b1 b2 -> revealed_kept b2 b3 -> revealed_kept b1 b3.
Proof. unfold revealed_kept. auto. Qed.

Lemma revealed_kept_same b b' : revealed_flags b' = revealed_flags b -> revealed_kept b b'.
Proof. unfold revealed_kept. by intros ->. Qed.

Lemma revealed_kept_open b idx cs :
  modify (cells b) idx (set_is_revealed true) = Some cs ->
  revealed_kept b (set_cells cs b).
Proof.
  intros (n & x & Hs & Hl & ->)%modify_Some i. unfold revealed_flags. simpl.
  rewrite list_fmap_insert. simpl. destruct (decide (n = i)) as [->|Hne].
  - intros _. apply list_lookup_insert_eq. rewrite length_fmap. by eapply slot_lt.
  - by rewrite list_lookup_insert_ne.
Qed.

Lemma revealed_kept_fmap (f : Cell -> Cell) b b0 :
  (forall cell, is_revealed (state cell) = true -> is_revealed (state (f cell)) = true) ->
  cells b0 = cells b -> revealed_kept b (set_cells (f <$> cells b0) b0).
Proof.
  intros Hf Hcells i (cell & Hl & Hr)%revealed_flags_lookup.
  apply revealed_flags_lookup. exists (f cell). simpl.
  rewrite Hcells, list_lookup_fmap, Hl. split; [done|by apply Hf].
Qed.

Lemma check_win_revealed_kept b : revealed_kept b (_check_win b).
Proof.
  unfold _check_win. destruct (_ && _); [|apply revealed_kept_refl].
  apply (revealed_kept_fmap _ b (set_win true b)); [|done].
  intros cell H. by rewrite H.
Qed.

Lemma reveal_all_mines_revealed_kept b : revealed_kept b (_reveal_all_mines b).
Proof.
  apply (revealed_kept_fmap _ b b); [|done].
  intros cell H. destruct (is_mine (state cell)); [reflexivity|exact H].
Qed.

Lemma progress_refl w : progress w w.
Proof. unfold progress. repeat (split; [done|]). apply revealed_kept_refl. Qed.

Lemma progress_trans w1 w2 w3 : progress w1 w2 -> progress w2 w3 -> progress w1 w3.
Proof.
  intros (C1 & R1 & L1 & F1 & K1) (C2 & R2 & L2 & F2 & K2).
  unfold progress. repeat (split; [congruence|]). by eapply revealed_kept_trans.
Qed.

Lemma place_mines_progress c r w : progress w (after (place_mines c r w)).
Proof.
  destruct (place_mines_frame c r w) as [H _]. unfold outside_placement in H.
  injection H as Hc Hr _ _ _ _ _ Hrev Hfl.
  split; [done|]. split; [done|]. split; [|split; [done|by apply revealed_kept_same]].
  apply (f_equal length) in Hrev. unfold revealed_flags in Hrev.
  by rewrite !length_fmap in Hrev.
Qed.

Lemma open_progress w idx cs :
  modify (cells (board w)) idx (set_is_revealed true) = Some cs ->
  progress w (set_board (set_cells cs (board w)) w).
Proof.
  intros M. split; [done|]. split; [done|]. split; [by eapply modify_length|]. split.
  - unfold flagged_flags. simpl. by eapply modify_fmap_same; [|exact M].
  - by eapply revealed_kept_open.
Qed.

Lemma hit_mine_progress w : progress w (hit_mine w).
Proof.
  split; [done|]. split; [done|]. split; [simpl; by rewrite length_fmap|]. split.
  - apply (reveal_all_mines_attr (fun cell => is_flagged (state cell))
                                 (set_game_over true (board w))). done.
  - apply (reveal_all_mines_revealed_kept (set_game_over true (board w))).
Qed.

Lemma check_win_progress w : progress w (check_win w).
Proof.
  unfold progress, check_win. simpl. split; [|split; [|split; [|split]]].
  - unfold _check_win. by destruct (_ && _).
  - unfold _check_win. by destruct (_ && _).
  - unfold _check_win. destruct (_ && _); [|done]. simpl. by rewrite length_fmap.
  - by apply (check_win_attr (fun cell => is_flagged (state cell))).
  - apply check_win_revealed_kept.
Qed.

Lemma reveal_n_progress fuel col row w o :
  reveal_n fuel col row w = Some o -> progress w (after o).
Proof.
  apply (reveal_n_rel progress).
  - apply progress_refl.
  - apply progress_trans.
  - intros c r w0 _. apply place_mines_progress.
  - intros w0 idx cell cs _ _ M. by apply (open_progress w0 idx).
  - apply hit_mine_progress.
  - apply check_win_progress.
Qed.

Lemma toggle_flag_revealed_kept col row w :
  revealed_kept (board w) (board (after (toggle_flag col row w))).
Proof.
  apply revealed_kept_same.
  by apply (toggle_flag_keeps_attr (fun cell => is_revealed (state cell))).
Qed.

(** X12: [is_revealed] only ever goes from false to true: over every sequence
    of [reveal] and [toggle_flag] calls on every board, completed or cut short
    by a raise, a cell that was revealed before is revealed after. *)
Theorem play_keeps_revealed ms w i cell :
  cells (board w) !! i = Some cell -> is_revealed (state cell) = true ->
  exists cell', cells (board (after (play ms w))) !! i = Some cell' /\
                is_revealed (state cell') = true.
Proof.
  intros Hl Hr. apply revealed_flags_lookup.
  assert (revealed_kept (board w) (board (after (play ms w)))) as Hkept.
  { apply (for_each_rel move (fun w w' => revealed_kept (board w) (board w'))).
    - intros; apply revealed_kept_refl.
    - intros ? ? ?; apply revealed_kept_trans.
    - intros [c r|c r] w0 _; simpl.
      + destruct (reveal_n_progress _ _ _ _ _ (reveal_n_reveal c r w0))
          as (_ & _ & _ & _ & H). exact H.
      + apply toggle_flag_revealed_kept. }
  apply Hkept. apply revealed_flags_lookup. by exists cell.
Qed.

Lemma play_keeps_revealed_witness :
  let w := after (reveal 0 0 (after (place_mines 0 0 (new_game 3 1 1 [])))) in
  let cell := mkCell 1 0 (mkCellState false true false 1) in
  let ms := [ToggleFlag 1 0; Reveal 2 0; Reveal 1 0] in
  cells (board w) !! 1%nat = Some cell /\ is_revealed (state cell) = true /\
  exists cell', cells (board (after (play ms w))) !! 1%nat = Some cell' /\
                is_revealed (state cell') = true.
Proof.
  intros w cell ms.
  assert (cells (board w) !! 1%nat = Some cell) as Hl by (vm_compute; reflexivity).
  split; [exact Hl|]. split; [reflexivity|].
  exact (play_keeps_revealed ms w 1%nat cell Hl eq_refl).
Defined.

(** X13: the placement is fixed for the rest of the game: on every board of a
    lifetime, no sequence of [reveal] and [toggle_flag] calls changes the
    [is_mine] or the [adjacent] of any cell. *)
Theorem play_keeps_placement ms w :
  reachable w ->
  mines (board (after (play ms w))) = mines (board w) /\
  adjacents (board (after (play ms w))) = adjacents (board w).
Proof.
  assert (forall m w0, reachable w0 ->
            mines (board (after (move m w0))) = mines (board w0) /\
            adjacents (board (after (move m w0))) = adjacents (board w0)) as Hmove.
  { intros [c r|c r] w0 Hw0; simpl.
    - pose proof (reachable_mines_placed w0 Hw0) as Hmp. split.
      + by apply (reveal_keeps_attr (fun cell => is_mine (state cell))).
      + by apply (reveal_keeps_attr (fun cell => adjacent (state cell))).
    - split.
      + by apply (toggle_flag_keeps_attr (fun cell => is_mine (state cell))).
      + by apply (toggle_flag_keeps_attr (fun cell => adjacent (state cell))). }
  revert w. induction ms as [|m ms IH]; intros w Hw; [done|].
  unfold play. simpl. destruct (Hmove m w Hw) as [Hm Ha].
  pose proof (reach_move m w Hw) as Hw1.
  destruct (move m w) as [w1|e w1]; simpl in *; [|done].
  destruct (IH w1 Hw1) as [Hm' Ha']. unfold play in Hm', Ha'. split; congruence.
Qed.

Lemma play_keeps_placement_witness :
  let w := after (place_mines 0 0 (new_game 4 3 2 [5; 1]%nat)) in
  let ms := [Reveal 0 0; ToggleFlag 3 2; Reveal 3 0; Reveal 9 9] in
  reachable w /\
  mines (board (after (play ms w))) = mines (board w) /\
  adjacents (board (after (play ms w))) = adjacents (board w).
Proof.
  intros w ms. assert (reachable w) as Hreach by apply reach_place_mines, reach_init.
  split; [exact Hreach|]. exact (play_keeps_placement ms w Hreach).
Defined.

(** ** What [reveal] leaves behind it *)

(** A cell that [reveal] would skip is one that it still skips later. *)
Lemma settled_progress w w' c r :
  settled (board w) c r -> progress w w' -> settled (board w') c r.
Proof.
  intros (cell & Hcell & Hrf) (Hc & _ & Hlen & Hfl & Hkept).
  apply getitem_Some in Hcell as (n & Hs & Hl).
  destruct (lookup_lt_is_Some_2 (cells (board w')) n) as [cell' Hl'].
  { rewrite Hlen. by eapply lookup_lt_Some. }
  exists cell'. split.
  - apply getitem_Some. exists n. split; [|done].
    unfold index. rewrite Hc, <- Hs. by apply slot_length.
  - apply orb_true_iff in Hrf as [Hr|Hf]; apply orb_true_iff.
    + left. assert (revealed_flags (board w') !! n = Some true) as H.
      { apply Hkept, revealed_flags_lookup. by exists cell. }
      apply revealed_flags_lookup in H as (c' & Hc' & Hr'). congruence.
    + right. assert (flagged_flags (board w') !! n = Some true) as H.
      { rewrite Hfl. unfold flagged_flags. by rewrite list_lookup_fmap, Hl; simpl; f_equal. }
      unfold flagged_flags in H. rewrite list_lookup_fmap, Hl' in H. by injection H.
Qed.

Lemma settled_unflagged w w' c r cell :
  progress w w' -> cell_at (board w) c r = Some cell ->
  is_flagged (state cell) = false -> settled (board w') c r ->
  exists cell', cell_at (board w') c r = Some cell' /\ is_revealed (state cell') = true.
Proof.
  intros (Hc & _ & Hlen & Hfl & _) Hcell Hflag (cell' & Hcell' & Hrf).
  exists cell'. split; [done|].
  apply getitem_Some in Hcell as (n & Hs & Hl).
  apply getitem_Some in Hcell' as (n' & Hs' & Hl').
  assert (n' = n) as ->.
  { unfold index in Hs'. rewrite Hc in Hs'.
    rewrite (slot_length _ (cells (board w))) in Hs' by done.
    unfold index in Hs. congruence. }
  apply (f_equal (fun l => l !! n)) in Hfl. unfold flagged_flags in Hfl.
  rewrite !list_lookup_fmap, Hl, Hl' in Hfl. simpl in Hfl. injection Hfl as Hfl.
  rewrite Hfl, Hflag, orb_false_r in Hrf. done.
Qed.

Lemma progress_inbounds w w' c r :
  progress w w' -> is_inbounds (board w') c r = is_inbounds (board w) c r.
Proof. intros (Hc & Hr & _). by apply is_inbounds_layout. Qed.

Section Settles.
Variable rev : Z -> Z -> World -> option Outcome.
Hypothesis rev_progress : forall nc nr w o, rev nc nr w = Some o -> progress w (after o).
Hypothesis rev_settles : forall nc nr w w',
    is_inbounds (board w) nc nr = true -> rev nc nr w = Some (Ok w') ->
    settled (board w') nc nr.

Lemma reveal_each_progress ns w o : reveal_each rev ns w = Some o -> progress w (after o).
Proof. apply (reveal_each_rel progress progress_refl progress_trans rev rev_progress). Qed.

Lemma reveal_each_settles ns w w' :
  (forall p, p ∈ ns -> is_inbounds (board w) p.1 p.2 = true) ->
  reveal_each rev ns w = Some (Ok w') ->
  forall p, p ∈ ns -> settled (board w') p.1 p.2.
Proof.
  revert w. induction ns as [|[nc nr] ns IH]; intros w Hin Heach p Hp.
  { by apply elem_of_nil in Hp. }
  simpl in Heach. destruct (rev nc nr w) as [[w1|e w1]|] eqn:E; [|done|done].
  pose proof (rev_progress _ _ _ _ E) as H1. simpl in H1.
  apply elem_of_cons in Hp as [->|Hp].
  - apply (settled_progress w1); [|exact (reveal_each_progress _ _ _ Heach)].
    apply (rev_settles nc nr w); [|done]. apply (Hin (nc, nr)). left.
  - apply (IH w1); [|done|done]. intros q Hq.
    rewrite (progress_inbounds w w1) by done. apply Hin. by right.
Qed.

Lemma reveal_cell_settles col row w w' :
  reveal_cell rev col row w = Some (Ok w') -> settled (board w') col row.
Proof.
  unfold reveal_cell.
  destruct (getitem _ _) as [cell|] eqn:G; [|done].
  destruct (is_revealed (state cell) || is_flagged (state cell)) eqn:Hrf.
  { intros [= <-]. by exists cell. }
  destruct (modify _ _ _) as [cs|] eqn:M; [|done].
  assert (settled (board (set_board (set_cells cs (board w)) w)) col row) as H2.
  { exists (set_is_revealed true cell). split; [|done].
    unfold cell_at, index. simpl. by eapply getitem_modify_same. }
  destruct (is_mine (state cell)).
  { intros [= <-]. eapply settled_progress; [exact H2|apply hit_mine_progress]. }
  destruct (bool_decide _).
  - destruct (reveal_each _ _ _) as [[w3|e w3]|] eqn:F; [|done|done]. intros [= <-].
    eapply settled_progress; [|apply check_win_progress].
    eapply settled_progress; [exact H2|exact (reveal_each_progress _ _ _ F)].
  - intros [= <-]. eapply settled_progress; [exact H2|apply check_win_progress].
Qed.

Lemma reveal_body_settles col row w w' :
  is_inbounds (board w) col row = true ->
  reveal_body rev col row w = Some (Ok w') -> settled (board w') col row.
Proof.
  intros Hin. unfold reveal_body. rewrite Hin. simpl.
  destruct (mines_placed (board w)) as [placed|]; [|done].
  destruct (if negb placed then _ else _) as [w1|e w1]; [|done].
  apply reveal_cell_settles.
Qed.
End Settles.

Lemma reveal_n_settles fuel col row w w' :
  is_inbounds (board w) col row = true ->
  reveal_n fuel col row w = Some (Ok w') -> settled (board w') col row.
Proof.
  revert col row w w'. induction fuel as [|fuel IH]; intros col row w w' Hin; [done|].
  simpl. intros H. apply (reveal_body_settles (reveal_n fuel)) with (w := w); [|done|done].
  intros nc nr w0 o. apply reveal_n_progress.
Qed.

(** X14: [reveal] is idempotent on the boards of a lifetime: when a call
    returns, the same call again returns and changes nothing (the cell is by
    then revealed or flagged, or the coordinates are out of bounds). *)
Theorem reveal_idempotent col row w w' :
  mines_placed (board w) <> Some false ->
  reveal col row w = Ok w' -> reveal col row w' = Ok w'.
Proof.
  intros Hmp Hrev. destruct (is_inbounds (board w) col row) eqn:Hin.
  2:{ rewrite reveal_out_of_bounds in Hrev by done. injection Hrev as <-.
      by apply reveal_out_of_bounds. }
  pose proof (reveal_n_reveal col row w) as Hn. rewrite Hrev in Hn.
  pose proof (reveal_n_progress _ _ _ _ _ Hn) as Hprog. simpl in Hprog.
  pose proof (reveal_n_settles _ _ _ _ _ Hin Hn) as (cell & Hcell & Hrf).
  assert (mines_placed (board w') = Some true) as Hmp'.
  { pose proof (reveal_placed_or_kept col row w) as Hk. rewrite Hrev in Hk. simpl in Hk.
    destruct Hk as [Hk|Hk]; [|done]. rewrite Hk.
    destruct (mines_placed (board w)) as [[|]|] eqn:E; [done|done|].
    by rewrite (reveal_unset_attribute col row w Hin E) in Hrev. }
  unfold reveal. simpl. unfold reveal_body.
  rewrite (progress_inbounds w w') by done. rewrite Hin, Hmp'. simpl.
  unfold reveal_cell. unfold cell_at in Hcell. by rewrite Hcell, Hrf.
Qed.

Lemma reveal_idempotent_witness :
  let w := after (place_mines 0 0 (new_game 4 3 2 [5; 1]%nat)) in
  let w' := after (reveal 0 0 w) in
  mines_placed (board w) <> Some false /\ reveal 0 0 w = Ok w' /\
  reveal 0 0 w' = Ok w'.
Proof.
  intros w w'.
  assert (mines_placed (board w) <> Some false) as Hmp by (vm_compute; discriminate).
  assert (reveal 0 0 w = Ok w') as Hrev by (vm_compute; reflexivity).
  split; [exact Hmp|]. split; [exact Hrev|].
  exact (reveal_idempotent 0 0 w w' Hmp Hrev).
Defined.

(** Where the flood from a cell without neighbouring mines has been. *)
Lemma zero_cell_floods col row w w' cell :
  is_inbounds (board w) col row = true ->
  mines_placed (board w) = Some true ->
  cell_at (board w) col row = Some cell ->
  is_revealed (state cell) = false -> is_flagged (state cell) = false ->
  is_mine (state cell) = false -> adjacent (state cell) = 0 ->
  reveal col row w = Ok w' ->
  (exists cell', cell_at (board w') col row = Some cell' /\
                 is_revealed (state cell') = true) /\
  forall nc nr, (nc, nr) ∈ neighbors (board w) col row ->
    exists ncell, cell_at (board w') nc nr = Some ncell /\
                  (is_revealed (state ncell) = true \/ is_flagged (state ncell) = true).
Proof.
  intros Hin Hmp Hcell Hrev Hflag Hmine Hadj Hreveal.
  pose proof (reveal_n_reveal col row w) as Hn. rewrite Hreveal in Hn.
  simpl in Hn. unfold reveal_body in Hn. rewrite Hin, Hmp in Hn. simpl in Hn.
  unfold reveal_cell in Hn. unfold cell_at in Hcell.
  rewrite Hcell, Hrev, Hflag in Hn. simpl in Hn.
  destruct (modify _ _ _) as [cs|] eqn:M; [|done].
  rewrite Hmine, bool_decide_eq_true_2 in Hn by done.
  destruct (reveal_each _ _ _) as [[w3|e w3]|] eqn:F; [|done|done].
  injection Hn as <-.
  set (w2 := set_board (set_cells cs (board w)) w) in *.
  pose proof (reveal_each_progress (reveal_n (hidden (board w)))
                (fun nc nr w0 o => reveal_n_progress _ nc nr w0 o) _ _ _ F) as H23.
  simpl in H23.
  assert (progress w (check_win w3)) as Hprog.
  { eapply progress_trans; [by apply (open_progress w _ cs M)|].
    eapply progress_trans; [exact H23|apply check_win_progress]. }
  split.
  - apply (settled_unflagged w (check_win w3) col row cell Hprog Hcell Hflag).
    eapply settled_progress; [|exact (progress_trans _ _ _ H23 (check_win_progress w3))].
    exists (set_is_revealed true cell). split; [|done].
    unfold cell_at, index. simpl. by eapply getitem_modify_same.
  - intros nc nr Hn.
    assert (settled (board (check_win w3)) nc nr) as (ncell & Hncell & Hrf).
    { eapply settled_progress; [|apply check_win_progress].
      apply (reveal_each_settles (reveal_n (hidden (board w)))
               (fun nc nr w0 o => reveal_n_progress _ nc nr w0 o)
               (fun nc nr w0 w0' => reveal_n_settles _ nc nr w0 w0')
               (neighbors (board w2) col row) w2 w3) with (p := (nc, nr));
        [|exact F|exact Hn].
      intros p Hp. by apply neighbors_inbounds in Hp. }
    exists ncell. split; [done|]. by apply orb_true_iff.
Qed.

(** X15: flood fill.  When [reveal] returns from a cell that was hidden, not
    flagged, not a mine and had [adjacent] 0, the cell is revealed and every
    one of its in-bounds neighbours is revealed or flagged. *)
Theorem reveal_zero_floods col row w w' cell :
  is_inbounds (board w) col row = true ->
  mines_placed (board w) = Some true ->
  cell_at (board w) col row = Some cell ->
  is_revealed (state cell) = false -> is_flagged (state cell) = false ->
  is_mine (state cell) = false -> adjacent (state cell) = 0 ->
  reveal col row w = Ok w' ->
  (exists cell', cell_at (board w') col row = Some cell' /\
                 is_revealed (state cell') = true) /\
  forall nc nr, (nc, nr) ∈ neighbors (board w) col row ->
    exists ncell, cell_at (board w') nc nr = Some ncell /\
                  (is_revealed (state ncell) = true \/ is_flagged (state ncell) = true).
Proof. apply zero_cell_floods. Qed.

Lemma reveal_zero_floods_witness :
  let w := after (place_mines 0 0 (new_game 4 3 2 [5; 1]%nat)) in
  let w' := after (reveal 0 0 w) in
  let cell := mkCell 0 0 (mkCellState false false false 0) in
  is_inbounds (board w) 0 0 = true /\ mines_placed (board w) = Some true /\
  cell_at (board w) 0 0 = Some cell /\ reveal 0 0 w = Ok w' /\
  (1, 1) ∈ neighbors (board w) 0 0 /\
  exists ncell, cell_at (board w') 1 1 = Some ncell /\
                (is_revealed (state ncell) = true \/ is_flagged (state ncell) = true).
Proof.
  intros w w' cell.
  assert (is_inbounds (board w) 0 0 = true) as Hin by (vm_compute; reflexivity).
  assert (mines_placed (board w) = Some true) as Hmp by (vm_compute; reflexivity).
  assert (cell_at (board w) 0 0 = Some cell) as Hcell by (vm_compute; reflexivity).
  assert (reveal 0 0 w = Ok w') as Hrev by (vm_compute; reflexivity).
  assert ((1, 1) ∈ neighbors (board w) 0 0) as Hn.
  { apply list_elem_of_In. vm_compute. right; right; left. reflexivity. }
  split; [exact Hin|]. split; [exact Hmp|]. split; [exact Hcell|].
  split; [exact Hrev|]. split; [exact Hn|].
  exact (proj2 (reveal_zero_floods 0 0 w w' cell Hin Hmp Hcell
                  eq_refl eq_refl eq_refl eq_refl Hrev) 1 1 Hn).
Defined.

(** ** Revealing a safe cell never costs the game *)

Lemma harmless_refl w : harmless w w.
Proof. by repeat split. Qed.

Lemma harmless_trans w1 w2 w3 : harmless w1 w2 -> harmless w2 w3 -> harmless w1 w3.
Proof.
  intros (A1 & B1 & C1 & D1) (A2 & B2 & C2 & D2). unfold harmless.
  repeat (split; [congruence|]). congruence.
Qed.

Lemma placement_is_mine_at b b' c r :
  placement b' = placement b -> is_mine_at b' c r = is_mine_at b c r.
Proof. unfold placement. intros [= Hc _ Hm _]. by apply is_mine_at_layout. Qed.

(** Consistency of the adjacency counts is a property of the placement. *)
Lemma placement_consistent b b' :
  placement b' = placement b -> adjacency_consistent b -> adjacency_consistent b'.
Proof.
  unfold placement. intros [= Hc Hr Hm Ha] Hcons c r cell' Hin Hcell' Hmine'.
  rewrite (mine_neighbors_layout b b') by done.
  rewrite (is_inbounds_layout b b') in Hin by done.
  apply getitem_Some in Hcell' as (n & Hs & Hl').
  assert (length (cells b') = length (cells b)) as Hlen.
  { apply (f_equal length) in Hm. unfold mines in Hm. by rewrite !length_fmap in Hm. }
  destruct (lookup_lt_is_Some_2 (cells b) n) as [cell Hl].
  { rewrite <- Hlen. by eapply lookup_lt_Some. }
  assert (is_mine (state cell) = is_mine (state cell')) as Em.
  { apply (f_equal (fun l => l !! n)) in Hm. unfold mines in Hm.
    rewrite !list_lookup_fmap, Hl, Hl' in Hm. simpl in Hm. by injection Hm. }
  assert (adjacent (state cell) = adjacent (state cell')) as Ea.
  { apply (f_equal (fun l => l !! n)) in Ha. unfold adjacents in Ha.
    rewrite !list_lookup_fmap, Hl, Hl' in Ha. simpl in Ha. by injection Ha. }
  rewrite <- Ea. apply Hcons; [done| |congruence].
  apply getitem_Some. exists n. split; [|done].
  unfold index in *. rewrite <- Hc, <- Hs. by apply slot_length.
Qed.

(** A cell with no neighbouring mine has no mine among its neighbours. *)
Lemma zero_mine_neighbors b c r p :
  mine_neighbors b c r = 0 -> p ∈ neighbors b c r -> is_mine_at b p.1 p.2 <> Some true.
Proof.
  unfold mine_neighbors. intros Hzero Hp Hmine.
  assert (In p (List.filter (fun p => bool_decide (is_mine_at b p.1 p.2 = Some true))
                            (neighbors b c r))) as Hfilter.
  { apply filter_In. split; [by apply list_elem_of_In|by apply bool_decide_eq_true]. }
  destruct (List.filter _ _); [done|simpl in Hzero; lia].
Qed.

Lemma modify_fmap_same_at {A B} (g : A -> B) (l : list A) i (f : A -> A) l' x :
  getitem l i = Some x -> g (f x) = g x -> modify l i f = Some l' -> g <$> l' = g <$> l.
Proof.
  intros (n & Hs & Hl)%getitem_Some Hg (n' & x' & Hs' & Hl' & ->)%modify_Some.
  assert (n' = n) as -> by congruence. assert (x' = x) as -> by congruence.
  rewrite list_fmap_insert, Hg. apply list_insert_id.
  by rewrite list_lookup_fmap, Hl.
Qed.

Lemma check_win_harmless w : harmless w (check_win w).
Proof.
  unfold harmless, check_win. simpl. split; [apply check_win_mines_placed|].
  split; [|split].
  - unfold placement, adjacents. rewrite check_win_mines.
    rewrite (check_win_attr (fun cell => adjacent (state cell))) by done.
    unfold _check_win. by destruct (_ && _).
  - unfold _check_win. by destruct (_ && _).
  - unfold revealed_mines, _check_win. destruct (_ && _); [|done]. simpl.
    apply fmap_attr_same. intros cell.
    destruct (is_revealed (state cell)) eqn:Hr, (is_mine (state cell)) eqn:Hm;
      simpl; by rewrite ?Hr, ?Hm.
Qed.

Section SafeReveal.
Variable rev : Z -> Z -> World -> option Outcome.
Hypothesis rev_safe : forall nc nr w o,
    mines_placed (board w) = Some true -> adjacency_consistent (board w) ->
    is_mine_at (board w) nc nr <> Some true ->
    rev nc nr w = Some o -> harmless w (after o).

Lemma reveal_each_safe ns w o :
  mines_placed (board w) = Some true -> adjacency_consistent (board w) ->
  (forall p, p ∈ ns -> is_mine_at (board w) p.1 p.2 <> Some true) ->
  reveal_each rev ns w = Some o -> harmless w (after o).
Proof.
  revert w. induction ns as [|[nc nr] ns IH]; intros w Hmp Hcons Hns; simpl.
  { intros [= <-]. apply harmless_refl. }
  destruct (rev nc nr w) as [[w1|e w1]|] eqn:E; [| |done].
  - pose proof (rev_safe nc nr w _ Hmp Hcons (Hns (nc, nr) ltac:(left)) E) as H1.
    simpl in H1. intros Heach. eapply harmless_trans; [exact H1|].
    destruct H1 as (A & B & _ & _). apply IH; [congruence| | |done].
    + by eapply placement_consistent.
    + intros p Hp. rewrite (placement_is_mine_at (board w) (board w1)) by done.
      apply Hns. by right.
  - intros [= <-].
    exact (rev_safe nc nr w _ Hmp Hcons (Hns (nc, nr) ltac:(left)) E).
Qed.

Lemma reveal_cell_safe col row w o :
  is_inbounds (board w) col row = true ->
  mines_placed (board w) = Some true -> adjacency_consistent (board w) ->
  is_mine_at (board w) col row <> Some true ->
  reveal_cell rev col row w = Some o -> harmless w (after o).
Proof.
  intros Hin Hmp Hcons Hsafe. unfold reveal_cell.
  destruct (getitem _ _) as [cell|] eqn:G; [|intros [= <-]; apply harmless_refl].
  destruct (_ || _); [intros [= <-]; apply harmless_refl|].
  destruct (modify _ _ _) as [cs|] eqn:M; [|intros [= <-]; apply harmless_refl].
  assert (is_mine (state cell) = false) as Hmine.
  { rewrite is_mine_at_cell in Hsafe. unfold cell_at in Hsafe. rewrite G in Hsafe.
    simpl in Hsafe. by destruct (is_mine (state cell)). }
  rewrite Hmine.
  set (w2 := set_board (set_cells cs (board w)) w).
  assert (harmless w w2) as H2.
  { unfold harmless, w2. simpl. split; [done|]. split; [|split; [done|]].
    - unfold placement, mines, adjacents. simpl.
      rewrite (modify_fmap_same (fun cell => is_mine (state cell)) _ _
                                (set_is_revealed true) _ ltac:(done) M).
      rewrite (modify_fmap_same (fun cell => adjacent (state cell)) _ _
                                (set_is_revealed true) _ ltac:(done) M).
      done.
    - unfold revealed_mines. simpl.
      eapply modify_fmap_same_at; [exact G| |exact M]. simpl. by rewrite Hmine. }
  pose proof H2 as (A2 & B2 & _ & _).
  destruct (bool_decide (adjacent (state cell) = 0)) eqn:Hzero.
  - apply bool_decide_eq_true in Hzero.
    assert (mine_neighbors (board w) col row = 0) as Hnone.
    { rewrite <- Hzero. symmetry. by apply (Hcons col row cell). }
    destruct (reveal_each _ _ _) as [[w3|e w3]|] eqn:F; intros [= <-].
    + eapply harmless_trans; [exact H2|]. eapply harmless_trans; [|apply check_win_harmless].
      apply (reveal_each_safe _ _ _) in F; [done|congruence| |].
      * by eapply placement_consistent.
      * intros p Hp. rewrite (placement_is_mine_at (board w) (board w2)) by done.
        by apply (zero_mine_neighbors (board w) col row).
    + eapply harmless_trans; [exact H2|].
      apply (reveal_each_safe _ _ _) in F; [done|congruence| |].
      * by eapply placement_consistent.
      * intros p Hp. rewrite (placement_is_mine_at (board w) (board w2)) by done.
        by apply (zero_mine_neighbors (board w) col row).
  - intros [= <-]. eapply harmless_trans; [exact H2|apply check_win_harmless].
Qed.

Lemma reveal_body_safe col row w o :
  mines_placed (board w) = Some true -> adjacency_consistent (board w) ->
  is_mine_at (board w) col row <> Some true ->
  reveal_body rev col row w = Some o -> harmless w (after o).
Proof.
  intros Hmp Hcons Hsafe. unfold reveal_body.
  destruct (is_inbounds _ _ _) eqn:Hin; simpl; [|intros [= <-]; apply harmless_refl].
  rewrite Hmp. simpl. by apply reveal_cell_safe.
Qed.
End SafeReveal.

Lemma reveal_n_safe fuel col row w o :
  mines_placed (board w) = Some true -> adjacency_consistent (board w) ->
  is_mine_at (board w) col row <> Some true ->
  reveal_n fuel col row w = Some o -> harmless w (after o).
Proof.
  revert col row w o. induction fuel as [|fuel IH]; intros col row w o; [done|].
  simpl. intros Hmp Hcons Hsafe. by apply reveal_body_safe.
Qed.

(** X16: on a board whose adjacency counts are those of its mines, [reveal]
    at a cell that is not a mine never costs the game, however far the flood
    goes: [game_over] is after the call what it was before, no mine has been
    revealed, and the placement is untouched. *)
Theorem reveal_safe_cell col row w :
  mines_placed (board w) = Some true ->
  adjacency_consistent (board w) ->
  is_mine_at (board w) col row <> Some true ->
  game_over (board (after (reveal col row w))) = game_over (board w) /\
  revealed_mines (board (after (reveal col row w))) = revealed_mines (board w) /\
  mines (board (after (reveal col row w))) = mines (board w).
Proof.
  intros Hmp Hcons Hsafe.
  destruct (reveal_n_safe _ _ _ _ _ Hmp Hcons Hsafe (reveal_n_reveal col row w))
    as (_ & Hpl & Hg & Hr).
  split; [done|]. split; [done|]. unfold placement in Hpl. by injection Hpl.
Qed.

Lemma reveal_safe_cell_witness :
  let w := after (place_mines 0 0 (new_game 3 1 1 [])) in
  mines_placed (board w) = Some true /\ is_mine_at (board w) 1 0 <> Some true /\
  game_over (board (after (reveal 1 0 w))) = game_over (board w) /\
  revealed_mines (board (after (reveal 1 0 w))) = revealed_mines (board w) /\
  mines (board (after (reveal 1 0 w))) = mines (board w).
Proof.
  intros w.
  assert (mines_placed (board w) = Some true) as Hmp by (vm_compute; reflexivity).
  assert (is_mine_at (board w) 1 0 <> Some true) as Hsafe by (vm_compute; discriminate).
  split; [exact Hmp|]. split; [exact Hsafe|].
  apply (reveal_safe_cell 1 0 w Hmp); [|exact Hsafe].
  intros c r cell Hin Hcell Hmine.
  apply is_inbounds_spec in Hin as [Hc Hr].
  assert (cols (board w) = 3) as Ec by (vm_compute; reflexivity).
  assert (rows (board w) = 1) as Er by (vm_compute; reflexivity).
  rewrite Ec in Hc. rewrite Er in Hr.
  assert (r = 0) as -> by lia.
  assert (c = 0 \/ c = 1 \/ c = 2) as Hcases by lia.
  destruct Hcases as [-> | [-> | ->]];
    vm_compute in Hcell; injection Hcell as <-; vm_compute; first [reflexivity|done].
Defined.

(** ** The first click *)

(** After [place_mines] the adjacency counts are those of the mines. *)
Lemma place_mines_consistent safe_col safe_row w w' :
  place_mines safe_col safe_row w = Ok w' -> adjacency_consistent (board w').
Proof.
  intros (mine_locs & b1 & _ & _ & Hadj)%place_mines_ok c r cell Hin Hcell Hmine.
  destruct (adjacency_loops_ok _ _ Hadj) as [(Hc & Hr & _) Hset].
  destruct (Hset c r) as (cell' & Hcell' & Hcount).
  { by rewrite <- (is_inbounds_layout b1 (board w')). }
  assert (cell' = cell) as -> by congruence. by apply Hcount.
Qed.

(** The cells of a new board are in their default state. *)
Lemma Board_init_default cols rows mines i cell :
  cells (Board_init cols rows mines) !! i = Some cell ->
  state cell = mkCellState false false false 0.
Proof.
  intros Hl%list_elem_of_lookup_2. simpl in Hl.
  apply list_elem_of_bind in Hl as (r' & Hl & _).
  apply list_elem_of_bind in Hl as (c' & ->%list_elem_of_singleton & _). done.
Qed.

(** The first click, the call given all the depth it needs. *)
Lemma first_click_full_depth ncols nrows nmines gen safe_col safe_row w1 :
  is_inbounds (Board_init ncols nrows nmines) safe_col safe_row = true ->
  place_mines safe_col safe_row (new_game ncols nrows nmines gen) = Ok w1 ->
  mines_placed (board w1) = Some true ->
  exists w2, reveal safe_col safe_row w1 = Ok w2 /\
    game_over (board w2) = false /\
    (forall c r, (c, r) ∈ safe_zone (board w1) safe_col safe_row ->
       exists cell, cell_at (board w2) c r = Some cell /\
                    is_revealed (state cell) = true /\ is_mine (state cell) = false) /\
    (forall i cell, cells (board w2) !! i = Some cell ->
                    is_mine (state cell) = true -> is_revealed (state cell) = false).
Proof.
  intros Hin0 Hplace Hmp.
  set (b0 := Board_init ncols nrows nmines) in *.
  set (w0 := new_game ncols nrows nmines gen) in *.
  pose proof (place_mines_frame safe_col safe_row w0) as [Hframe _].
  rewrite Hplace in Hframe. cbn [after] in Hframe. unfold outside_placement in Hframe.
  injection Hframe as Hc Hr _ _ _ Hgo _ Hrevf Hflagf.
  change (board w0) with b0 in Hc, Hr, Hgo, Hrevf, Hflagf.
  assert (length (cells (board w1)) = length (cells b0)) as Hlen.
  { apply (f_equal length) in Hrevf. unfold revealed_flags in Hrevf.
    by rewrite !length_fmap in Hrevf. }
  assert (forall i cell, cells (board w1) !! i = Some cell ->
            is_revealed (state cell) = false /\ is_flagged (state cell) = false)
    as Hfresh.
  { intros i cell Hl.
    destruct (lookup_lt_is_Some_2 (cells b0) i) as [cell0 Hl0].
    { rewrite <- Hlen. by eapply lookup_lt_Some. }
    pose proof (Board_init_default _ _ _ _ _ Hl0) as Hst. unfold b0 in Hl0.
    apply (f_equal (fun l => l !! i)) in Hrevf, Hflagf.
    unfold revealed_flags, flagged_flags in Hrevf, Hflagf.
    rewrite !list_lookup_fmap, Hl, Hl0 in Hrevf, Hflagf.
    simpl in Hrevf, Hflagf. rewrite Hst in Hrevf, Hflagf. simpl in Hrevf, Hflagf.
    split; congruence. }
  assert (is_inbounds (board w1) safe_col safe_row = true) as Hin.
  { by rewrite (is_inbounds_layout b0 (board w1)). }
  assert (grid_complete (board w1)) as Hgrid.
  { unfold grid_complete. rewrite Hlen, Hc, Hr. apply Board_init_complete. }
  pose proof (place_mines_consistent _ _ _ _ Hplace) as Hcons.
  assert (forall c r, (c, r) ∈ safe_zone (board w1) safe_col safe_row ->
                      is_mine_at (board w1) c r = Some false) as Hzone.
  { apply (safe_zone_stays_clear safe_col safe_row w0 w1); [done| |done].
    intros c r _. apply Board_init_no_mine. }
  destruct (cell_at_inbounds _ _ _ Hgrid Hin) as [cell Hcell].
  assert (is_mine (state cell) = false) as Hmine.
  { pose proof (Hzone safe_col safe_row ltac:(left)) as H.
    rewrite is_mine_at_cell, Hcell in H. simpl in H. by injection H. }
  pose proof Hcell as (n & _ & Hl)%getitem_Some.
  destruct (Hfresh n cell Hl) as [Hrev Hflag].
  assert (mine_neighbors (board w1) safe_col safe_row = 0) as Hnone.
  { unfold mine_neighbors.
    destruct (List.filter _ _) as [|q l'] eqn:E; [done|]. exfalso.
    assert (In q (q :: l')) as Hq by (by left). rewrite <- E in Hq.
    apply filter_In in Hq as [Hq Hb]. apply bool_decide_eq_true in Hb.
    rewrite (Hzone q.1 q.2) in Hb; [done|]. right.
    apply list_elem_of_In. by destruct q. }
  assert (adjacent (state cell) = 0) as Hadj.
  { rewrite <- Hnone. by apply Hcons. }
  destruct (reveal_returns (S (hidden (board w1))) safe_col safe_row w1
              ltac:(by split) ltac:(lia)) as (w2 & Hn & _).
  assert (reveal safe_col safe_row w1 = Ok w2) as Hreveal.
  { pose proof (reveal_n_reveal safe_col safe_row w1) as Hn'. congruence. }
  exists w2. split; [done|].
  pose proof (reveal_n_progress _ _ _ _ _ Hn) as Hprog. simpl in Hprog.
  assert (is_mine_at (board w1) safe_col safe_row <> Some true) as Hsafe.
  { by rewrite (Hzone safe_col safe_row ltac:(left)). }
  destruct (reveal_n_safe _ _ _ _ _ Hmp Hcons Hsafe Hn) as (_ & Hpl & Hgo2 & Hrm).
  simpl in Hpl, Hgo2, Hrm.
  destruct (zero_cell_floods safe_col safe_row w1 w2 cell Hin Hmp Hcell Hrev Hflag
              Hmine Hadj Hreveal) as [Hself Hneigh].
  split; [by rewrite Hgo2, Hgo|]. split.
  - intros c r Hcr.
    assert (exists cell', cell_at (board w2) c r = Some cell' /\
                          is_revealed (state cell') = true) as (cell' & Hcell' & Hrev').
    { apply elem_of_cons in Hcr as [[= -> ->]|Hcr]; [exact Hself|].
      destruct (Hneigh c r Hcr) as (ncell & Hncell & Hrf).
      assert (is_inbounds (board w1) c r = true) as Hcrin
          by (by apply neighbors_inbounds in Hcr).
      destruct (cell_at_inbounds _ _ _ Hgrid Hcrin) as [cell1 Hcell1].
      pose proof Hcell1 as (m & _ & Hl1)%getitem_Some.
      destruct (Hfresh m cell1 Hl1) as [_ Hflag1].
      apply (settled_unflagged w1 w2 c r cell1 Hprog Hcell1 Hflag1).
      exists ncell. split; [done|]. by apply orb_true_iff. }
    exists cell'. split; [done|]. split; [done|].
    pose proof (Hzone c r Hcr) as H.
    rewrite <- (placement_is_mine_at (board w1) (board w2)) in H by done.
    rewrite is_mine_at_cell, Hcell' in H. simpl in H. by injection H.
  - intros i cell2 Hl2 Hmine2.
    apply (f_equal (fun l => l !! i)) in Hrm. unfold revealed_mines in Hrm.
    rewrite !list_lookup_fmap, Hl2 in Hrm. simpl in Hrm. rewrite Hmine2 in Hrm.
    destruct (cells (board w1) !! i) as [cell1|] eqn:Hl1; [|done].
    destruct (Hfresh i cell1 Hl1) as [Hr1 _]. simpl in Hrm.
    rewrite Hr1, andb_false_r in Hrm. simpl in Hrm. by injection Hrm.
Qed.

(** X17: the first click.  On a new board, when [place_mines] at an in-bounds
    position has returned and has set [mines_placed], a call of [reveal] at
    the same position that completes, at whatever depth of nested calls, has
    returned: the clicked cell and all its in-bounds neighbours are revealed
    and are not mines, no mine is revealed and [game_over] is false.  The
    call does complete when the interpreter allows more nested calls of
    [reveal] than the board has hidden cells. *)
Theorem first_click_opens_safe_zone ncols nrows nmines gen safe_col safe_row w1 :
  is_inbounds (Board_init ncols nrows nmines) safe_col safe_row = true ->
  place_mines safe_col safe_row (new_game ncols nrows nmines gen) = Ok w1 ->
  mines_placed (board w1) = Some true ->
  (forall limit, (hidden (board w1) < limit)%nat ->
                 exists w2, reveal_n limit safe_col safe_row w1 = Some (Ok w2)) /\
  (forall limit outcome, reveal_n limit safe_col safe_row w1 = Some outcome ->
   exists w2, outcome = Ok w2 /\
    game_over (board w2) = false /\
    (forall c r, (c, r) ∈ safe_zone (board w1) safe_col safe_row ->
       exists cell, cell_at (board w2) c r = Some cell /\
                    is_revealed (state cell) = true /\ is_mine (state cell) = false) /\
    (forall i cell, cells (board w2) !! i = Some cell ->
                    is_mine (state cell) = true -> is_revealed (state cell) = false)).
Proof.
  intros Hin Hplace Hmp.
  destruct (first_click_full_depth _ _ _ _ _ _ _ Hin Hplace Hmp) as (w2 & Hw2 & Hprops).
  split.
  - intros limit Hl. exists w2.
    destruct (reveal_n_enough limit safe_col safe_row w1 Hl) as [o Ho].
    rewrite Ho. f_equal. by rewrite (reveal_n_complete _ _ _ _ _ Ho).
  - intros limit outcome Ho. exists w2.
    split; [by rewrite (reveal_n_complete _ _ _ _ _ Ho)|exact Hprops].
Qed.

Lemma first_click_opens_safe_zone_witness :
  let w1 := after (place_mines 0 0 (new_game 4 3 2 [5; 1]%nat)) in
  is_inbounds (Board_init 4 3 2) 0 0 = true /\
  place_mines 0 0 (new_game 4 3 2 [5; 1]%nat) = Ok w1 /\
  mines_placed (board w1) = Some true /\
  exists w2, reveal_n 13 0 0 w1 = Some (Ok w2) /\ game_over (board w2) = false.
Proof.
  intros w1.
  assert (is_inbounds (Board_init 4 3 2) 0 0 = true) as Hin by (vm_compute; reflexivity).
  assert (place_mines 0 0 (new_game 4 3 2 [5; 1]%nat) = Ok w1) as Hplace
      by (vm_compute; reflexivity).
  assert (mines_placed (board w1) = Some true) as Hmp by (vm_compute; reflexivity).
  split; [exact Hin|]. split; [exact Hplace|]. split; [exact Hmp|].
  destruct (first_click_opens_safe_zone 4 3 2 [5; 1]%nat 0 0 w1 Hin Hplace Hmp)
    as [Hdone Hres].
  destruct (Hdone 13%nat) as [w2 Hw2]; [vm_compute; lia|].
  destruct (Hres 13%nat (Ok w2) Hw2) as (w2' & Heq & Hgo & _).
  injection Heq as <-.
  exists w2. split; [exact Hw2|exact Hgo].
Defined.

(** ** How many mines [place_mines] places *)

Lemma take_nth_some {A} (j : nat) (l : list A) :
  (j < length l)%nat -> is_Some (take_nth j l).
Proof.
  revert j. induction l as [|a l IH]; intros j Hj; simpl in *; [lia|].
  destruct j as [|j]; [done|]. destruct (IH j ltac:(lia)) as [[y t] ->]. done.
Qed.

Lemma take_nth_rest {A} (j : nat) (l : list A) x rest :
  take_nth j l = Some (x, rest) ->
  S (length rest) = length l /\ (NoDup l -> (x ∉ rest) /\ NoDup rest).
Proof.
  revert j x rest. induction l as [|a l IH]; intros j x rest; simpl; [done|].
  destruct j as [|j].
  - intros [= <- <-]. split; [done|]. by intros [? ?]%NoDup_cons.
  - destruct (take_nth j l) as [[y t]|] eqn:E; [|done]. intros [= <- <-].
    destruct (IH _ _ _ E) as [Hlen Hnd]. destruct (take_nth_elem _ _ _ _ E) as [Hy Ht].
    split; [simpl; lia|]. intros [Ha Hl]%NoDup_cons.
    destruct (Hnd Hl) as [Hyt Hndt]. split.
    + intros [->|?]%elem_of_cons; [done|done].
    + apply NoDup_cons. split; [|done]. intros ?%Ht. done.
Qed.

Lemma draw_spec {A} (k : nat) gen (pool : list A) xs gen' :
  draw k gen pool = (xs, gen') -> (k <= length pool)%nat ->
  length xs = k /\ (NoDup pool -> NoDup xs).
Proof.
  revert gen pool xs gen'. induction k as [|k IH]; intros gen pool xs gen'; simpl.
  { intros [= <- <-] _. split; [done|]. intros _. apply NoDup_nil_2. }
  intros Hdraw Hk.
  destruct (take_nth_some (hd 0%nat gen mod length pool)%nat pool) as [[x rest] E].
  { apply Nat.mod_upper_bound. lia. }
  rewrite E in Hdraw. destruct (draw k (tl gen) rest) as [ys g] eqn:D.
  injection Hdraw as <- <-.
  destruct (take_nth_rest _ _ _ _ E) as [Hlen Hnd].
  destruct (IH _ _ _ _ D ltac:(lia)) as [Hys Hndys].
  split; [simpl; lia|]. intros Hpool. destruct (Hnd Hpool) as [Hx Hrest].
  apply NoDup_cons. split; [|by apply Hndys].
  intros Hin. apply Hx. by eapply draw_elem.
Qed.

(** [random.sample] hands back [k] members of the population, no member
    twice. *)
Lemma sample_spec {A} gen (pool : list A) k xs gen' :
  sample gen pool k = Some (xs, gen') ->
  0 <= k /\ Z.of_nat (length xs) = k /\ (NoDup pool -> NoDup xs).
Proof.
  unfold sample. case_bool_decide as Hk; [|done]. intros [= E].
  destruct (draw_spec _ _ _ _ _ E ltac:(lia)) as [Hlen Hnd].
  split; [lia|]. split; [lia|done].
Qed.

Lemma positions_NoDup b : NoDup (r ← range (rows b); c ← range (cols b); [(c, r)]).
Proof.
  apply NoDup_bind; [| |apply NoDup_seqZ].
  - intros r1 r2 p _ _ (c1 & ->%list_elem_of_singleton & _)%list_elem_of_bind
           (c2 & [= _ ->]%list_elem_of_singleton & _)%list_elem_of_bind. done.
  - intros r _. apply NoDup_bind; [| |apply NoDup_seqZ].
    + intros c1 c2 p _ _ ->%list_elem_of_singleton [= ->]%list_elem_of_singleton. done.
    + intros c _. apply NoDup_singleton.
Qed.

Lemma candidates_NoDup b safe_col safe_row : NoDup (candidates b safe_col safe_row).
Proof. apply NoDup_filter, positions_NoDup. Qed.

Lemma candidates_spec b safe_col safe_row p :
  p ∈ candidates b safe_col safe_row <->
  is_inbounds b p.1 p.2 = true /\ p ∉ safe_zone b safe_col safe_row.
Proof.
  unfold candidates. rewrite list_elem_of_filter, positions_spec. tauto.
Qed.

(** What a call of [place_mines] that returns has done, step by step. *)
Lemma place_mines_sampled safe_col safe_row w w' :
  place_mines safe_col safe_row w = Ok w' ->
  exists mine_locs gen b1,
    sample (rng w) (candidates (board w) safe_col safe_row)
           (Z.min (num_mines (board w))
                  (Z.of_nat (length (candidates (board w) safe_col safe_row))))
    = Some (mine_locs, gen) /\
    for_each mark_mine mine_locs (board w) = Ok b1 /\
    adjacency_loops b1 = Ok (board w').
Proof.
  unfold place_mines. fold (safe_zone (board w) safe_col safe_row).
  fold (candidates (board w) safe_col safe_row).
  destruct (sample _ _ _) as [[mine_locs gen]|] eqn:Hs; [|done].
  destruct (for_each mark_mine mine_locs (board w)) as [b1|] eqn:H1; simpl; [|done].
  destruct (adjacency_loops b1) as [b2|] eqn:H2; [|done]. intros [= <-].
  by exists mine_locs, gen, b1.
Qed.

Lemma count_insert (P : Cell -> bool) (l : list Cell) n x y :
  l !! n = Some x -> P x = false -> P y = true ->
  length (List.filter P (<[n := y]> l)) = S (length (List.filter P l)).
Proof.
  revert n. induction l as [|a l IH]; intros [|n] Hl Hx Hy; simpl in *; try done.
  - injection Hl as ->. by rewrite Hx, Hy.
  - destruct (P a); simpl; by rewrite (IH n Hl Hx Hy).
Qed.

Lemma mark_mine_count p b b' :
  mark_mine p b = Ok b' -> is_mine_at b p.1 p.2 <> Some true ->
  count_mined b' = count_mined b + 1.
Proof.
  unfold mark_mine. destruct (modify _ _ _) as [cs|] eqn:M; [|done]. intros [= <-] Hnot.
  apply modify_Some in M as (n & x & Hs & Hl & ->).
  assert (is_mine (state x) = false) as Hx.
  { rewrite is_mine_at_cell in Hnot. unfold cell_at, getitem in Hnot.
    rewrite Hs, Hl in Hnot. simpl in Hnot. by destruct (is_mine (state x)). }
  unfold count_mined. simpl.
  rewrite (count_insert (fun cell => is_mine (state cell)) _ n x); [lia|done|done|done].
Qed.

Lemma mark_mines_count mine_locs b b1 :
  NoDup mine_locs ->
  (forall p, p ∈ mine_locs ->
             is_inbounds b p.1 p.2 = true /\ is_mine_at b p.1 p.2 <> Some true) ->
  for_each mark_mine mine_locs b = Ok b1 ->
  count_mined b1 = count_mined b + Z.of_nat (length mine_locs).
Proof.
  revert b. induction mine_locs as [|p locs IH]; intros b Hnd Hlocs; simpl.
  { intros [= <-]. lia. }
  apply NoDup_cons in Hnd as [Hp Hnd].
  destruct (mark_mine p b) as [b'|e b'] eqn:E; simpl; [|done]. intros Hrest.
  destruct (Hlocs p ltac:(left)) as [Hpin Hpnot].
  pose proof (mark_mine_count _ _ _ E Hpnot) as Hcount.
  destruct (mark_mine_ok _ _ _ E) as (Hc & Hr & Hother).
  rewrite (IH b' Hnd); [lia| |done].
  intros q Hq. destruct (Hlocs q ltac:(by right)) as [Hqin Hqnot].
  split; [by rewrite (is_inbounds_layout b b')|].
  destruct q as [qc qr]. rewrite Hother; [done|done|done|].
  intros <-. done.
Qed.

Lemma count_mined_mines b b' : mines b' = mines b -> count_mined b' = count_mined b.
Proof.
  assert (forall b0, count_mined b0
                     = Z.of_nat (length (List.filter (fun x : bool => x) (mines b0)))) as H.
  { intros b0. unfold count_mined, mines. f_equal.
    induction (cells b0) as [|a l IH]; [done|]. simpl.
    destruct (is_mine (state a)); simpl; by rewrite IH. }
  rewrite !H. by intros ->.
Qed.

(** X18: [place_mines] adds exactly min(num_mines, number of candidates)
    mines, the candidates being the in-bounds positions outside the safe
    zone, provided no candidate is a mine already (as on a new board). *)
Theorem place_mines_count safe_col safe_row w w' :
  (forall p, p ∈ candidates (board w) safe_col safe_row ->
             is_mine_at (board w) p.1 p.2 <> Some true) ->
  place_mines safe_col safe_row w = Ok w' ->
  count_mined (board w') =
  count_mined (board w) +
  Z.min (num_mines (board w))
        (Z.of_nat (length (candidates (board w) safe_col safe_row))).
Proof.
  intros Hfree (mine_locs & gen & b1 & Hs & Hmark & Hadj)%place_mines_sampled.
  destruct (sample_spec _ _ _ _ _ Hs) as (_ & Hlen & Hnd).
  destruct (adjacency_loops_ok _ _ Hadj) as [(_ & _ & Hm) _].
  rewrite (count_mined_mines b1 (board w')) by done.
  rewrite (mark_mines_count mine_locs (board w) b1); [lia| | |done].
  - apply Hnd, candidates_NoDup.
  - intros p Hp. pose proof (sample_elem _ _ _ _ _ Hs p Hp) as Hcand.
    split; [by apply candidates_spec in Hcand as [? _]|by apply Hfree].
Qed.

Lemma place_mines_count_witness :
  let w := new_game 4 3 2 [5; 1]%nat in
  let w' := after (place_mines 0 0 w) in
  place_mines 0 0 w = Ok w' /\
  count_mined (board w') =
  count_mined (board w) +
  Z.min (num_mines (board w)) (Z.of_nat (length (candidates (board w) 0 0))).
Proof.
  intros w w'.
  assert (place_mines 0 0 w = Ok w') as Hplace by (vm_compute; reflexivity).
  split; [exact Hplace|].
  apply (place_mines_count 0 0 w w'); [|exact Hplace].
  intros p _. apply Board_init_no_mine.
Defined.

(** ** The size of the pool *)

Lemma deltas_NoDup : NoDup deltas.
Proof. apply (bool_decide_unpack _). vm_compute. exact I. Qed.

Lemma neighbors_NoDup b c r : NoDup (neighbors b c r).
Proof.
  unfold neighbors. apply NoDup_ListNoDup, List.NoDup_filter, NoDup_ListNoDup.
  apply NoDup_fmap_2; [|apply deltas_NoDup].
  intros [a1 a2] [b1 b2] [= H1 H2]. simpl in *. f_equal; lia.
Qed.

Lemma safe_zone_NoDup b c r : NoDup (safe_zone b c r).
Proof.
  unfold safe_zone. apply NoDup_cons. split; [|apply neighbors_NoDup].
  intros [_ H]%neighbors_spec. simpl in H. lia.
Qed.

Lemma safe_zone_length b c r : (1 <= length (safe_zone b c r) <= 9)%nat.
Proof. unfold safe_zone. pose proof (neighbors_length b c r). simpl. lia. Qed.

Lemma safe_zone_inbounds b c r p :
  is_inbounds b c r = true -> p ∈ safe_zone b c r -> is_inbounds b p.1 p.2 = true.
Proof.
  intros Hin [->|Hp]%elem_of_cons; [done|]. by eapply neighbors_inbounds.
Qed.

Lemma filter_notin_length (z l : list (Z * Z)) :
  (length (filter (fun p => p ∉ z) l) + length (filter (fun p => p ∈ z) l)
   = length l)%nat.
Proof.
  induction l as [|a l IH]; [done|]. rewrite !filter_cons.
  destruct (decide (a ∉ z)) as [H1|H1], (decide (a ∈ z)) as [H2|H2]; simpl; try done; lia.
Qed.

Lemma positions_length b :
  0 <= cols b -> 0 <= rows b ->
  Z.of_nat (length (r ← range (rows b); c ← range (cols b); [(c, r)])) = cols b * rows b.
Proof.
  intros Hc Hr.
  rewrite (bind_length _ (Z.to_nat (cols b))).
  - unfold range. rewrite length_seqZ. nia.
  - intros r. rewrite (bind_length _ 1%nat); [|done].
    unfold range. rewrite length_seqZ. lia.
Qed.

(** The pool holds every position of the grid but those of the safe zone. *)
Lemma candidates_size b safe_col safe_row :
  is_inbounds b safe_col safe_row = true ->
  Z.of_nat (length (candidates b safe_col safe_row))
  = cols b * rows b - Z.of_nat (length (safe_zone b safe_col safe_row)).
Proof.
  intros Hin. pose proof Hin as [Hc Hr]%is_inbounds_spec.
  set (all := r ← range (rows b); c ← range (cols b); [(c, r)]).
  set (zone := safe_zone b safe_col safe_row).
  assert (length (filter (fun p => p ∈ zone) all) = length zone) as Hzone.
  { apply Permutation_length, NoDup_Permutation.
    - apply NoDup_filter, positions_NoDup.
    - apply safe_zone_NoDup.
    - intros p. rewrite list_elem_of_filter. unfold all. rewrite positions_spec.
      split; [tauto|]. intros Hp. split; [done|]. by eapply safe_zone_inbounds. }
  pose proof (filter_notin_length zone all) as Hsplit.
  pose proof (positions_length b ltac:(lia) ltac:(lia)) as Hall. fold all in Hall.
  unfold candidates. fold zone. fold all. lia.
Qed.

(** X19: for an in-bounds safe cell the pool of [place_mines] holds
    cols * rows - k positions, k being the size of the safe zone, the safe zone
    being the cell and its in-bounds neighbours, between 1 and 9 positions. *)
Theorem candidates_length b safe_col safe_row :
  is_inbounds b safe_col safe_row = true ->
  Z.of_nat (length (candidates b safe_col safe_row))
  = cols b * rows b - Z.of_nat (length (safe_zone b safe_col safe_row)) /\
  (1 <= length (safe_zone b safe_col safe_row) <= 9)%nat.
Proof. intros Hin. split; [by apply candidates_size|apply safe_zone_length]. Qed.

Lemma candidates_length_witness :
  let b := Board_init 4 3 2 in
  is_inbounds b 0 0 = true /\
  Z.of_nat (length (candidates b 0 0))
  = cols b * rows b - Z.of_nat (length (safe_zone b 0 0)) /\
  (1 <= length (safe_zone b 0 0) <= 9)%nat.
Proof.
  intros b. split; [vm_compute; reflexivity|].
  apply (candidates_length b 0 0). vm_compute; reflexivity.
Defined.

(** ** A new board gets all its mines *)

Lemma Board_init_count_mined cols rows mines :
  count_mined (Board_init cols rows mines) = 0.
Proof.
  unfold count_mined.
  destruct (List.filter _ _) as [|cell l] eqn:E; [done|].
  assert (In cell (List.filter (fun cell => is_mine (state cell))
                               (cells (Board_init cols rows mines)))) as Hcell
      by (rewrite E; by left).
  apply filter_In in Hcell as [Hcell Hmine].
  apply list_elem_of_In, list_elem_of_lookup in Hcell as [i Hi].
  by rewrite (Board_init_default _ _ _ _ _ Hi) in Hmine.
Qed.

Lemma mark_mines_placed mine_locs b b1 :
  mine_locs <> [] -> for_each mark_mine mine_locs b = Ok b1 ->
  mines_placed b1 = Some true.
Proof.
  destruct mine_locs as [|p locs]; [done|]. intros _. simpl.
  destruct (mark_mine p b) as [b'|e b'] eqn:E; simpl; [|done]. intros Hrest.
  assert (mines_placed b' = Some true) as Hb'.
  { unfold mark_mine in E. destruct (modify _ _ _); [|done]. by injection E as <-. }
  assert (placed_or_kept b' (after (for_each mark_mine locs b'))) as Hk.
  { apply for_each_rel; [apply placed_or_kept_refl|apply placed_or_kept_trans|].
    intros q s _. apply mark_mine_frame. }
  rewrite Hrest in Hk. simpl in Hk. destruct Hk as [Hk|Hk]; congruence.
Qed.

Lemma adjacency_loops_placed b b' :
  adjacency_loops b = Ok b' -> mines_placed b = Some true -> mines_placed b' = Some true.
Proof.
  intros Hadj Hb.
  assert (placed_or_kept b (after (adjacency_loops b))) as Hk.
  { unfold adjacency_loops.
    apply for_each_rel; [apply placed_or_kept_refl|apply placed_or_kept_trans|].
    intros r s _.
    apply for_each_rel; [apply placed_or_kept_refl|apply placed_or_kept_trans|].
    intros c s' _. apply adjacency_step_frame. }
  rewrite Hadj in Hk. simpl in Hk. destruct Hk as [Hk|Hk]; congruence.
Qed.

(** Once [place_mines] has sampled a mine, [mines_placed] is true. *)
Lemma place_mines_sets_placed safe_col safe_row w w' :
  place_mines safe_col safe_row w = Ok w' ->
  0 < Z.min (num_mines (board w))
            (Z.of_nat (length (candidates (board w) safe_col safe_row))) ->
  mines_placed (board w') = Some true.
Proof.
  intros (mine_locs & gen & b1 & Hs & Hmark & Hadj)%place_mines_sampled Hpos.
  destruct (sample_spec _ _ _ _ _ Hs) as (_ & Hlen & _).
  apply (adjacency_loops_placed b1); [done|].
  apply (mark_mines_placed mine_locs (board w)); [|done].
  intros ->. simpl in Hlen. lia.
Qed.

(** A new board with room for its mines outside any safe zone gets exactly
    [mines] of them. *)
Lemma new_game_all_mines ncols nrows nmines gen safe_col safe_row :
  is_inbounds (Board_init ncols nrows nmines) safe_col safe_row = true ->
  0 <= nmines <= ncols * nrows - 9 ->
  exists w1,
    place_mines safe_col safe_row (new_game ncols nrows nmines gen) = Ok w1 /\
    count_mined (board w1) = nmines /\
    (0 < nmines -> mines_placed (board w1) = Some true).
Proof.
  intros Hin Hroom. set (w := new_game ncols nrows nmines gen).
  destruct (place_mines_returns safe_col safe_row w) as (w1 & Hplace & _).
  { apply Board_init_complete. }
  { simpl. lia. }
  exists w1. split; [done|].
  pose proof (candidates_size (board w) safe_col safe_row Hin) as Hsize.
  pose proof (safe_zone_length (board w) safe_col safe_row) as Hzone.
  assert (Z.min (num_mines (board w))
                (Z.of_nat (length (candidates (board w) safe_col safe_row))) = nmines)
    as Hmin.
  { simpl in *. lia. }
  split.
  - assert (count_mined (board w1) = count_mined (board w) + nmines) as ->.
    { rewrite <- Hmin.
      destruct (place_mines_sampled _ _ _ _ Hplace)
        as (mine_locs & gen' & b1 & Hs & Hmark & Hadj).
      destruct (sample_spec _ _ _ _ _ Hs) as (_ & Hlen & Hnd).
      destruct (adjacency_loops_ok _ _ Hadj) as [(_ & _ & Hm) _].
      rewrite (count_mined_mines b1 (board w1)) by done.
      rewrite (mark_mines_count mine_locs (board w) b1); [lia| | |done].
      - apply Hnd, candidates_NoDup.
      - intros p Hp. pose proof (sample_elem _ _ _ _ _ Hs p Hp) as Hcand.
        split; [by apply candidates_spec in Hcand as [? _]|apply Board_init_no_mine]. }
    unfold w, new_game. simpl. rewrite Board_init_count_mined. lia.
  - intros Hpos. apply (place_mines_sets_placed safe_col safe_row w w1 Hplace). lia.
Qed.

(** ** The difficulty presets *)

Lemma get_difficulty_settings_cases level :
  Config.get_difficulty_settings level =
  Some (if bool_decide (level = 1) then (10, 10, 10)
        else if bool_decide (level = 3) then (20, 20, 80)
        else (15, 15, 40)).
Proof.
  unfold Config.get_difficulty_settings, Config.dict_get, Config.DIFFICULTY_PRESETS.
  cbn [Config.dict_getitem].
  rewrite (bool_decide_eq_false_2 (1 = 2)) by lia.
  rewrite (bool_decide_eq_true_2 (2 = 2)) by lia.
  rewrite (bool_decide_ext (1 = level) (level = 1)) by lia.
  rewrite (bool_decide_ext (3 = level) (level = 3)) by lia.
  destruct (bool_decide_reflect (level = 1)) as [->|H1]; [done|].
  destruct (bool_decide_reflect (2 = level)) as [<-|H2]; [done|].
  by destruct (bool_decide_reflect (level = 3)).
Qed.

(** X20: [get_difficulty_settings] returns for every level, and never raises
    [KeyError]: levels 1 and 3 give their presets, every other integer the
    preset of level 2, (15, 15, 40). *)
Theorem get_difficulty_settings_fallback level :
  Config.get_difficulty_settings level =
  Some (if bool_decide (level = 1) then (10, 10, 10)
        else if bool_decide (level = 3) then (20, 20, 80)
        else (15, 15, 40)).
Proof. apply get_difficulty_settings_cases. Qed.

(** X21: whatever the level, on a new board built from the settings of
    [get_difficulty_settings], [place_mines] with any in-bounds safe cell
    returns, places exactly [mines] mines and sets [mines_placed]: every
    preset leaves room for its mines outside the safe zone. *)
Theorem preset_board_gets_all_mines level ncols nrows nmines gen safe_col safe_row :
  Config.get_difficulty_settings level = Some (ncols, nrows, nmines) ->
  is_inbounds (Board_init ncols nrows nmines) safe_col safe_row = true ->
  exists w1,
    place_mines safe_col safe_row (new_game ncols nrows nmines gen) = Ok w1 /\
    count_mined (board w1) = nmines /\
    mines_placed (board w1) = Some true.
Proof.
  rewrite get_difficulty_settings_cases. intros Hset Hin.
  assert (0 < nmines <= ncols * nrows - 9) as Hroom.
  { destruct (bool_decide (level = 1)); [injection Hset as <- <- <-; lia|].
    destruct (bool_decide (level = 3)); injection Hset as <- <- <-; lia. }
  destruct (new_game_all_mines ncols nrows nmines gen safe_col safe_row Hin ltac:(lia))
    as (w1 & Hplace & Hcount & Hplaced).
  exists w1. split; [done|]. split; [done|]. apply Hplaced. lia.
Qed.

Lemma preset_board_gets_all_mines_witness :
  exists w1,
    place_mines 3 4 (new_game 10 10 10 [7; 12; 80; 3; 3; 41; 0; 9; 55; 2]%nat) = Ok w1 /\
    count_mined (board w1) = 10 /\
    mines_placed (board w1) = Some true.
Proof.
  apply (preset_board_gets_all_mines 1); vm_compute; reflexivity.
Defined.
